(** * Authentication context resolution of bangumi/server-private

    A shallow embedding of [lib/auth/index.ts] (byHeader, byToken, byUserID,
    getPermission, emptyAuth, userToAuth) and of the parts of
    [lib/orm/index.ts] it calls (fetchUser, fetchUserX, fetchPermission).

    The TypeScript code is asynchronous and talks to a relational store, to
    two Redis-backed typed caches, to a process-local permission cache, to the
    wall clock and to the logger.  All of that is threaded explicitly through
    a [World]; an [Async A] computation maps a world to a result (a value or a
    thrown error) and the world after it. *)

From Stdlib Require Import ZArith String Ascii List Lia Bool.
From stdpp Require Import base option gmap strings list fin_maps pretty.

Set Warnings "-register-all".
Local Open Scope Z_scope.

(** ** JavaScript values that cross the model's borders *)

(** What [php.parse] can hand back: PHP scalars and arrays, the latter as the
    entries of the JavaScript object they are turned into. *)
Inductive php_value : Type :=
| PNull
| PBool (b : bool)
| PInt (z : Z)
| PDouble (literal : string)
| PString (s : string)
| PArray (entries : list (string * php_value)).

(** [value === '1'] : strict equality with the one-character string. *)
Definition strict_eq_one (v : php_value) : bool :=
  match v with
  | PString s => String.eqb s "1"
  | _ => false
  end.

(** Characters of a string with their indices, as [Object.entries] lists them. *)
Fixpoint string_entries (i : nat) (s : string) : list (string * php_value) :=
  match s with
  | EmptyString => []
  | String c rest =>
      (pretty i, PString (String c EmptyString)) :: string_entries (S i) rest
  end.

(** [Object.entries(v)]: a TypeError on null, no entries for numbers and
    booleans, indexed characters for a string, own properties for an object. *)
Definition Object_entries (v : php_value) : option (list (string * php_value)) :=
  match v with
  | PNull => None
  | PBool _ | PInt _ | PDouble _ => Some []
  | PString s => Some (string_entries 0 s)
  | PArray es => Some es
  end.

(** [Object.fromEntries]: entries are assigned left to right, so a later
    entry for the same key overwrites an earlier one. *)
Definition Object_fromEntries {V : Type} (es : list (string * V)) : gmap string V :=
  fold_left (fun m kv => <[kv.1 := kv.2]> m) es ∅.

(** ** Data model *)

(** [interface Permission]: every flag is optional, so an object is a finite
    map from flag names to booleans; [frozen] records [Object.freeze]. *)
Record Permission : Type := mkPermission {
  flags : gmap string bool;
  frozen : bool
}.

(** Reading [perms.flag] in a boolean position: a missing property is
    [undefined], which is falsy. *)
Definition truthy_flag (p : Permission) (name : string) : bool :=
  default false (flags p !! name).

(** [interface IUser] *)
Record IUser : Type := mkIUser {
  id : Z;
  username : string;
  nickname : string;
  groupID : Z;
  img : string;
  regTime : Z;
  sign : string
}.

(** [interface IAuth]; the accessors carry the prefix [auth_] where the field
    name is already taken by [IUser]. *)
Record IAuth : Type := mkIAuth {
  userID : Z;
  login : bool;
  allowNsfw : bool;
  permission : Permission;
  auth_regTime : Z;
  auth_groupID : Z
}.

(** The header argument of [byHeader]: [string | string[] | undefined]. *)
Inductive HeaderValue : Type :=
| HUndefined
| HString (s : string)
| HArray (values : list string).

(** Errors the code throws.  [HeaderInvalidError] is
    [createError('AUTHORIZATION_INVALID', '%s', 401)], [TokenNotValidError] is
    [createError('TOKEN_INVALID', ..., 401)]; [PlainError] is [new Error(msg)];
    [ForeignError] is an exception raised inside a library call
    ([php.parse], [Object.entries], [intval]). *)
Inductive Error : Type :=
| HeaderInvalidError (msg : string)
| TokenNotValidError
| UnexpectedNotFoundError (msg : string)
| PlainError (msg : string)
| ForeignError (origin : string).

Definition error_code (e : Error) : option string :=
  match e with
  | HeaderInvalidError _ => Some "AUTHORIZATION_INVALID"%string
  | TokenNotValidError => Some "TOKEN_INVALID"%string
  | _ => None
  end.

Definition statusCode (e : Error) : option Z :=
  match e with
  | HeaderInvalidError _ => Some 401
  | TokenNotValidError => Some 401
  | _ => None
  end.

(** ** The stores *)

(** A row of [chii_oauth_access_tokens]; [expiredAt] in epoch milliseconds. *)
Record TokenRow : Type := mkTokenRow {
  accessToken : string;
  tk_userID : option string;
  clientID : string;
  expiredAt : Z
}.

(** The [User] entity as [fetchUser] reads it. *)
Record UserRow : Type := mkUserRow {
  u_id : Z;
  u_username : string;
  u_nickname : string;
  u_avatar : string;
  u_groupid : Z;
  u_regdate : Z;
  u_sign : string
}.

(** A row of [chii_usergroup]: the group id and its serialized permissions. *)
Record UsergroupRow : Type := mkUsergroupRow {
  ug_id : Z;
  perm : option string
}.

Record Database : Type := mkDatabase {
  chiiAccessToken : list TokenRow;
  chiiMembers : list UserRow;
  chiiUsergroup : list UsergroupRow
}.

(** What a computation does to the outside, in order. *)
Inductive Event : Type :=
| TokenCacheGet (token : string)
| TokenCacheSet (token : string) (ttl : Z)
| UserCacheGet (uid : Z)
| UserCacheSet (uid : Z) (ttl : Z)
| PermissionCacheGet (group : Z)
| PermissionCacheSet (group : Z)
| QueryAccessToken (token : string)
| QueryUser (uid : Z)
| QueryUsergroup (group : Z)
| LoggerWarn (format : string) (arg : Z).

(** The world a request runs in.  A cache entry is a value with the instant
    (epoch milliseconds) at which it expires.  The two typed caches share one
    backend but their key formats ([auth:token:...], [auth:user:...]) keep
    them apart, hence one map each. *)
Record World : Type := mkWorld {
  db : Database;
  now_ms : Z;
  tokenAuthCache : gmap string (IUser * Z);
  userCache : gmap Z (IUser * Z);
  permissionCache : gmap Z (Permission * Z);
  trace : list Event
}.

Definition emit (e : Event) (w : World) : World :=
  mkWorld (db w) (now_ms w) (tokenAuthCache w) (userCache w)
          (permissionCache w) (trace w ++ [e]).

(** Time passing between two requests. *)
Definition advance (delta_ms : Z) (w : World) : World :=
  mkWorld (db w) (now_ms w + delta_ms) (tokenAuthCache w) (userCache w)
          (permissionCache w) (trace w).

(** Somebody else writing to the relational store between two requests. *)
Definition with_db (d : Database) (w : World) : World :=
  mkWorld d (now_ms w) (tokenAuthCache w) (userCache w)
          (permissionCache w) (trace w).

(** ** Asynchronous computations: state and exceptions *)

Inductive Result (A : Type) : Type :=
| Ok (a : A)
| Throw (e : Error).
Arguments Ok {A} a.
Arguments Throw {A} e.

Definition Async (A : Type) : Type := World -> Result A * World.

Definition ret {A} (a : A) : Async A := fun w => (Ok a, w).

Definition throw {A} (e : Error) : Async A := fun w => (Throw e, w).

Definition bind {A B} (k : A -> Async B) (m : Async A) : Async B :=
  fun w =>
    match m w with
    | (Ok a, w') => k a w'
    | (Throw e, w') => (Throw e, w')
    end.

(** stdpp's monad notations: [x ← m; k] is [await]-then-continue. *)
#[global] Instance Async_ret : MRet Async := @ret.
#[global] Instance Async_bind : MBind Async := @bind.

Definition perform (e : Event) : Async unit := fun w => (Ok tt, emit e w).

(** ** Collaborators outside the two modules *)

(** Modelled from the spec: [TypedCache] ([lib/cache.ts]) and the vendored
    [NodeCache] are not among the sources.  Section 4.5 gives the contract
    used here: [get(key)] answers the value or a miss, [set(key, value,
    ttlSeconds)] stores it, and an entry lives for its TTL.  An entry is live
    strictly before its expiry instant. *)
Definition live {V : Type} (now : Z) (entry : option (V * Z)) : option V :=
  match entry with
  | Some (v, expiry) => if now <? expiry then Some v else None
  | None => None
  end.

(** [tokenAuthCache.get(token)] *)
Definition tokenAuthCache_get (token : string) : Async (option IUser) :=
  fun w => (Ok (live (now_ms w) (tokenAuthCache w !! token)),
            emit (TokenCacheGet token) w).

(** [tokenAuthCache.set(token, u, ttl)] *)
Definition tokenAuthCache_set (token : string) (u : IUser) (ttl : Z) : Async unit :=
  fun w => (Ok tt,
            emit (TokenCacheSet token ttl)
              (mkWorld (db w) (now_ms w)
                 (<[token := (u, now_ms w + ttl * 1000)]> (tokenAuthCache w))
                 (userCache w) (permissionCache w) (trace w))).

(** [userCache.get(userID)] *)
Definition userCache_get (uid : Z) : Async (option IUser) :=
  fun w => (Ok (live (now_ms w) (userCache w !! uid)),
            emit (UserCacheGet uid) w).

(** [userCache.set(userID, u, ttl)] *)
Definition userCache_set (uid : Z) (u : IUser) (ttl : Z) : Async unit :=
  fun w => (Ok tt,
            emit (UserCacheSet uid ttl)
              (mkWorld (db w) (now_ms w) (tokenAuthCache w)
                 (<[uid := (u, now_ms w + ttl * 1000)]> (userCache w))
                 (permissionCache w) (trace w))).

(** [new NodeCache({ stdTTL: 60 * 10 })] *)
Definition permissionCache_stdTTL : Z := 60 * 10.

(** [permissionCache.get(userGroup)] *)
Definition permissionCache_get (group : Z) : Async (option Permission) :=
  fun w => (Ok (live (now_ms w) (permissionCache w !! group)),
            emit (PermissionCacheGet group) w).

(** [permissionCache.set(userGroup, p)] *)
Definition permissionCache_set (group : Z) (p : Permission) : Async unit :=
  fun w => (Ok tt,
            emit (PermissionCacheSet group)
              (mkWorld (db w) (now_ms w) (tokenAuthCache w) (userCache w)
                 (<[group := (p, now_ms w + permissionCache_stdTTL * 1000)]>
                    (permissionCache w))
                 (trace w))).

(** [db.query.chiiAccessToken.findFirst] with the [where] clause of [byToken]:
    binary-collation equality on the token and [expiredAt > new Date()]. *)
Definition findFirst_chiiAccessToken (token : string) : Async (option TokenRow) :=
  fun w => (Ok (find (fun r => String.eqb (accessToken r) token
                               && (now_ms w <? expiredAt r))
                     (chiiAccessToken (db w))),
            emit (QueryAccessToken token) w).

(** [UserRepo.findOne({ where: { id: userID } })] *)
Definition UserRepo_findOne (uid : Z) : Async (option UserRow) :=
  fun w => (Ok (find (fun r => u_id r =? uid) (chiiMembers (db w))),
            emit (QueryUser uid) w).

(** [db.query.chiiUsergroup.findFirst({ where: op.eq(id, userGroup) })] *)
Definition findFirst_chiiUsergroup (group : Z) : Async (option UsergroupRow) :=
  fun w => (Ok (find (fun r => ug_id r =? group) (chiiUsergroup (db w))),
            emit (QueryUsergroup group) w).

(** [logger.warn(format, arg)] *)
Definition logger_warn (format : string) (arg : Z) : Async unit :=
  perform (LoggerWarn format arg).

(** [DateTime.now().toUnixInteger()]: whole seconds, rounded down. *)
Definition toUnixInteger (ms : Z) : Z := ms / 1000.

Definition DateTime_now_toUnixInteger : Async Z :=
  fun w => (Ok (toUnixInteger (now_ms w)), w).

(** ** [lib/orm/index.ts] *)

(** [fetchUser] *)
Definition fetchUser (userID : Z) : Async (option IUser) :=
  if userID =? 0 then
    throw (PlainError ("undefined user id " +:+ pretty userID))
  else
    user ← UserRepo_findOne userID;
    match user with
    | None => mret None
    | Some user =>
        mret (Some {| id := u_id user;
                      nickname := u_nickname user;
                      username := u_username user;
                      img := u_avatar user;
                      groupID := u_groupid user;
                      regTime := u_regdate user;
                      sign := u_sign user |})
    end.

(** [fetchUserX] *)
Definition fetchUserX (id : Z) : Async IUser :=
  u ← fetchUser id;
  match u with
  | None => throw (UnexpectedNotFoundError ("user " +:+ pretty id))
  | Some u => mret u
  end.

(** [const defaultPermission] *)
Definition defaultPermission : gmap string bool :=
  {[ "ban_post"%string := true; "ban_visit"%string := true ]}.

(** [Object.freeze(o)] of a freshly built object. *)
Definition Object_freeze (o : gmap string bool) : Permission :=
  mkPermission o true.

Section WithLibraries.

(** [php.parse] of [@trim21/php-serialize] and [intval] of [lib/utils] are
    taken as given; [None] stands for a thrown exception. *)
Variable php_parse : string -> option php_value.
Variable intval : string -> option Z.

(** [fetchPermission] *)
Definition fetchPermission (userGroup : Z) : Async Permission :=
  row ← findFirst_chiiUsergroup userGroup;
  match row with
  | None =>
      logger_warn "can't find permission for userGroup %d" userGroup;;
      mret (Object_freeze defaultPermission)
  | Some row =>
      match perm row with
      | None => mret (Object_freeze defaultPermission)
      | Some blob =>
          if String.eqb blob "" then mret (Object_freeze defaultPermission)
          else
            match php_parse blob with
            | None => throw (ForeignError "php.parse")
            | Some parsed =>
                match Object_entries parsed with
                | None => throw (ForeignError "Object.entries")
                | Some entries =>
                    mret (Object_freeze
                            (Object_fromEntries
                               (map (fun kv => (kv.1, strict_eq_one kv.2)) entries)))
                end
            end
      end
  end.

(** ** [lib/auth/index.ts] *)

Definition tokenPrefix : string := "Bearer ".

Definition nsfwRestrictedUIDs : gset Z := {[ 873244 ]}.

(** [emptyAuth] *)
Definition emptyAuth : IAuth :=
  {| userID := 0;
     login := false;
     permission := mkPermission ∅ false;
     allowNsfw := false;
     auth_regTime := 0;
     auth_groupID := 0 |}.

(** [getPermission]; the argument is optional, and [!userGroup] holds for
    [undefined] and for [0]. *)
Definition getPermission (userGroup : option Z) : Async Permission :=
  match userGroup with
  | None => mret (Object_freeze ∅)
  | Some group =>
      if group =? 0 then mret (Object_freeze ∅)
      else
        cached ← permissionCache_get group;
        match cached with
        | Some p => mret p
        | None =>
            p ← fetchPermission group;
            permissionCache_set group p;;
            mret p
        end
  end.

(** [userToAuth] *)
Definition userToAuth (user : IUser) : Async IAuth :=
  perms ← getPermission (Some (groupID user));
  now ← DateTime_now_toUnixInteger;
  mret {| userID := id user;
          login := true;
          permission := perms;
          allowNsfw :=
            negb (bool_decide (id user ∈ nsfwRestrictedUIDs))
            && negb (truthy_flag perms "ban_visit")
            && negb (truthy_flag perms "user_ban")
            && (now - regTime user >=? 60 * 60 * 24 * 90);
          auth_regTime := regTime user;
          auth_groupID := groupID user |}.

(** The expression that [userToAuth] assigns to [allowNsfw], under a name. *)
Definition nsfw_gate (user : IUser) (perms : Permission) (now : Z) : bool :=
  negb (bool_decide (id user ∈ nsfwRestrictedUIDs))
  && negb (truthy_flag perms "ban_visit")
  && negb (truthy_flag perms "user_ban")
  && (now - regTime user >=? 60 * 60 * 24 * 90).

(** [byToken] *)
Definition byToken (token : string) : Async IAuth :=
  cached ← tokenAuthCache_get token;
  match cached with
  | Some u => userToAuth u
  | None =>
      row ← findFirst_chiiAccessToken token;
      match row with
      | None => throw TokenNotValidError
      | Some row =>
          match tk_userID row with
          | None => throw (PlainError "access token without user id")
          | Some uid =>
              if String.eqb uid "" then
                throw (PlainError "access token without user id")
              else
                match intval uid with
                | None => throw (ForeignError "intval")
                | Some n =>
                    u ← fetchUserX n;
                    tokenAuthCache_set token u (60 * 60 * 24);;
                    userToAuth u
                end
          end
      end
  end.

(** [byUserID] *)
Definition byUserID (userID : Z) : Async IAuth :=
  cached ← userCache_get userID;
  match cached with
  | Some u => userToAuth u
  | None =>
      u ← fetchUserX userID;
      userCache_set userID u (60 * 60);;
      userToAuth u
  end.

(** [key.slice(start)] for [0 <= start]. *)
Definition slice (start : nat) (s : string) : string :=
  substring start (String.length s - start) s.

Definition dquote : string := String (ascii_of_nat 34) EmptyString.

(** [byHeader]; [!key] holds for [undefined] and for the empty string, an
    array is never falsy. *)
Definition byHeader (key : HeaderValue) : Async IAuth :=
  match key with
  | HUndefined => mret emptyAuth
  | HArray _ =>
      throw (HeaderInvalidError "can't providing multiple access token")
  | HString key =>
      if String.eqb key "" then mret emptyAuth
      else if negb (String.prefix tokenPrefix key) then
        throw (HeaderInvalidError
                 ("authorization header should have " +:+ dquote
                    +:+ "Bearer ${TOKEN}" +:+ dquote +:+ " format"))
      else
        let token := slice (String.length tokenPrefix) key in
        if String.eqb token "" then
          throw (HeaderInvalidError "authorization header missing token")
        else byToken token
  end.

(** A serialized blob the library can read and list the entries of. *)
Definition blob_parses (blob : string) : Prop :=
  exists parsed entries,
    php_parse blob = Some parsed /\ Object_entries parsed = Some entries.

(** Every non-empty permission blob of the store is readable. *)
Definition groups_readable (d : Database) : Prop :=
  forall row blob,
    In row (chiiUsergroup d) -> perm row = Some blob -> blob ≠ ""%string ->
    blob_parses blob.

(** The effects leave the store and the clock alone. *)
Definition same_setting (w w' : World) : Prop :=
  db w' = db w /\ now_ms w' = now_ms w.

(** The ways an [IAuth] comes into being. *)
Inductive Entry : Type :=
| ViaHeader (key : HeaderValue)
| ViaToken (token : string)
| ViaUserID (userID : Z)
| ViaEmptyAuth.

Definition resolve (e : Entry) : Async IAuth :=
  match e with
  | ViaHeader key => byHeader key
  | ViaToken token => byToken token
  | ViaUserID userID => byUserID userID
  | ViaEmptyAuth => mret emptyAuth
  end.

End WithLibraries.

(** The invariant of the data model: an anonymous context is all zero. *)
Definition auth_invariant (a : IAuth) : Prop :=
  login a = false ->
  userID a = 0 /\ flags (permission a) = ∅ /\ auth_regTime a = 0
  /\ auth_groupID a = 0 /\ allowNsfw a = false.

(** Header values that are malformed by their shape alone: any array, a
    string without the prefix, a string with nothing after the prefix. *)
Definition malformed_shape (key : HeaderValue) : Prop :=
  match key with
  | HUndefined => False
  | HArray _ => True
  | HString s =>
      String.prefix tokenPrefix s = false
      \/ slice (String.length tokenPrefix) s = ""%string
  end.

(** The empty string is falsy: [byHeader] takes it for an absent header. *)
Definition nonempty_header (key : HeaderValue) : Prop :=
  match key with
  | HString s => s ≠ ""%string
  | _ => True
  end.

(** ** The rest of [lib/orm/index.ts]

    [fetchUsers], [addCreator] and [fetchSubjectByID] only read the typeorm
    repositories: neither a cache nor the clock nor the logger.  They run
    against the repositories and report the queries they issued. *)

(** The [Subject] entity as [fetchSubjectByID] reads it; [s_locked] is what
    the entity's [locked()] method answers. *)
Record SubjectRow : Type := mkSubjectRow {
  s_id : Z;
  s_name : string;
  s_typeID : Z;
  s_fieldInfobox : string;
  s_platform : Z;
  s_metaTags : string;
  s_fieldSummary : string;
  s_subjectNsfw : bool;
  s_subjectImage : string;
  s_locked : bool
}.

(** The [SubjectFields] entity as [fetchSubjectByID] reads it. *)
Record SubjectFieldsRow : Type := mkSubjectFieldsRow {
  f_subjectID : Z;
  f_date : string;
  f_fieldRedirect : Z
}.

(** [interface ISubject] *)
Record ISubject : Type := mkISubject {
  subject_id : Z;
  subject_name : string;
  typeID : Z;
  infobox : string;
  platform : Z;
  metaTags : string;
  summary : string;
  nsfw : bool;
  date : string;
  redirect : Z;
  locked : bool;
  image : string
}.

Record Repos : Type := mkRepos {
  UserRepo : list UserRow;
  SubjectRepo : list SubjectRow;
  SubjectFieldsRepo : list SubjectFieldsRow
}.

Inductive Query : Type :=
| FindUsersIn (ids : list Z)
| FindOneSubject (id : Z)
| FindOneSubjectFields (subjectID : Z).

Definition Orm (A : Type) : Type := Repos -> Result A * list Query.

Definition orm_ret {A} (a : A) : Orm A := fun _ => (Ok a, []).

Definition orm_throw {A} (e : Error) : Orm A := fun _ => (Throw e, []).

(** A step that issues no query: it returns or throws at once. *)
Definition orm_lift {A} (r : Result A) : Orm A := fun _ => (r, []).

Definition orm_bind {A B} (k : A -> Orm B) (m : Orm A) : Orm B :=
  fun r =>
    match m r with
    | (Ok a, qs) => let (b, qs') := k a r in (b, qs ++ qs')
    | (Throw e, qs) => (Throw e, qs)
    end.

#[global] Instance Orm_ret : MRet Orm := @orm_ret.
#[global] Instance Orm_bind : MBind Orm := @orm_bind.

(** [lo.uniq]: the first occurrence of each value, in order. *)
Fixpoint uniq_from (seen : list Z) (l : list Z) : list Z :=
  match l with
  | [] => []
  | x :: rest =>
      if bool_decide (x ∈ seen) then uniq_from seen rest
      else x :: uniq_from (x :: seen) rest
  end.

Definition lo_uniq (l : list Z) : list Z := uniq_from [] l.

(** [UserRepo.find({ where: { id: In(ids) } })], rows in table order. *)
Definition UserRepo_find_In (ids : list Z) : Orm (list UserRow) :=
  fun r => (Ok (List.filter (fun row => bool_decide (u_id row ∈ ids)) (UserRepo r)),
            [FindUsersIn ids]).

(** [SubjectRepo.findOne({ where: { id } })] *)
Definition SubjectRepo_findOne (id : Z) : Orm (option SubjectRow) :=
  fun r => (Ok (find (fun row => s_id row =? id) (SubjectRepo r)),
            [FindOneSubject id]).

(** [SubjectFieldsRepo.findOne({ where: { subjectID: id } })] *)
Definition SubjectFieldsRepo_findOne (id : Z) : Orm (option SubjectFieldsRow) :=
  fun r => (Ok (find (fun row => f_subjectID row =? id) (SubjectFieldsRepo r)),
            [FindOneSubjectFields id]).

(** The objects that [fetchUsers] builds carry a [user_group] property
    besides the fields of [IUser]; the one that [ghost] builds does not. *)
Record UserObject : Type := mkUserObject {
  as_IUser : IUser;
  user_group : option Z
}.

(** [Object.fromEntries] on entries keyed by integers, which a
    [Record<number, V>] is read back with. *)
Definition Record_fromEntries {V : Type} (es : list (Z * V)) : gmap Z V :=
  fold_left (fun m kv => <[kv.1 := kv.2]> m) es ∅.

(** The entry that [fetchUsers] makes of a row. *)
Definition user_entry (user : UserRow) : Z * UserObject :=
  (u_id user,
   {| as_IUser := {| id := u_id user;
                     nickname := u_nickname user;
                     username := u_username user;
                     img := u_avatar user;
                     groupID := u_groupid user;
                     regTime := u_regdate user;
                     sign := u_sign user |};
      user_group := Some (u_groupid user) |}).

(** [fetchUsers] *)
Definition fetchUsers (userIDs : list Z) : Orm (gmap Z UserObject) :=
  match userIDs with
  | [] => mret ∅
  | _ =>
      users ← UserRepo_find_In (lo_uniq userIDs);
      mret (Record_fromEntries (map user_entry users))
  end.

(** [ghost] *)
Definition ghost (id : Z) : IUser :=
  {| id := 0;
     img := EmptyString;
     username := pretty id;
     nickname := "deleted or missing user " +:+ pretty id;
     groupID := 0;
     regTime := 0;
     sign := EmptyString |}.

(** [Array.prototype.map] with a callback that may throw: the first
    exception, in order, ends the loop. *)
Fixpoint array_map {A B : Type} (f : A -> Result B) (l : list A) : Result (list B) :=
  match l with
  | [] => Ok []
  | x :: rest =>
      match f x with
      | Throw e => Throw e
      | Ok y =>
          match array_map f rest with
          | Throw e => Throw e
          | Ok ys => Ok (y :: ys)
          end
      end
  end.

Section AddCreator.

(** [T extends { creatorID: number }]; [{ ...o, creator }] is the pair of
    [o] and its creator. *)
Context {T : Type} (creatorID : T -> Z).

(** The callback of [arr.map] in [addCreator]. *)
Definition with_creator (ghostUser : bool) (users : gmap Z UserObject) (o : T)
  : Result (T * UserObject) :=
  match users !! creatorID o with
  | None =>
      if ghostUser then Ok (o, mkUserObject (ghost (creatorID o)) None)
      else Throw (UnexpectedNotFoundError ("user " +:+ pretty (creatorID o)))
  | Some user => Ok (o, user)
  end.

(** The store has a user for the creator of [o]. *)
Definition creator_known (r : Repos) (o : T) : Prop :=
  exists row, In row (UserRepo r) /\ u_id row = creatorID o.

(** [addCreator]; [ghostUser] defaults to [false]. *)
Definition addCreator (arr : list T) (ghostUser : bool) : Orm (list (T * UserObject)) :=
  users ← fetchUsers (map creatorID arr);
  orm_lift (array_map (with_creator ghostUser users) arr).

End AddCreator.

(** [fetchSubjectByID] *)
Definition fetchSubjectByID (id : Z) : Orm (option ISubject) :=
  subject ← SubjectRepo_findOne id;
  match subject with
  | None => mret None
  | Some subject =>
      f ← SubjectFieldsRepo_findOne id;
      match f with
      | None => orm_throw (UnexpectedNotFoundError ("subject fields " +:+ pretty id))
      | Some f =>
          mret (Some {| subject_id := s_id subject;
                        subject_name := s_name subject;
                        typeID := s_typeID subject;
                        infobox := s_fieldInfobox subject;
                        platform := s_platform subject;
                        metaTags := s_metaTags subject;
                        summary := s_fieldSummary subject;
                        nsfw := s_subjectNsfw subject;
                        date := f_date f;
                        redirect := f_fieldRedirect f;
                        locked := s_locked subject;
                        image := s_subjectImage subject |})
      end
  end.

(** ** The [/me] handler of [routes/private/routes/login.ts] *)

(** [NeedLoginError] is [createError('NEED_LOGIN', 'you need to login before
    %s', 401)]; the handler also lets the errors of [fetchUser] through. *)
Inductive RouteError : Type :=
| NeedLoginError (what : string)
| Raised (e : Error).

Inductive Reply (A : Type) : Type :=
| Replied (a : A)
| Failed (e : RouteError).
Arguments Replied {A} a.
Arguments Failed {A} e.

(** The [permission] object of the reply. *)
Record ClientPermission : Type := mkClientPermission {
  subjectWikiEdit : bool
}.

(** The handler of [GET /me]; [convert.oldToUser] is taken as given, and the
    reply [{ ...convert.oldToUser(u), permission }] is the pair of the two. *)
Definition getCurrentUser {U : Type} (oldToUser : IUser -> U) (auth : IAuth)
  : World -> Reply (U * ClientPermission) * World :=
  fun w =>
    if negb (login auth) then
      (Failed (NeedLoginError "getting current user"), w)
    else
      match fetchUser (userID auth) w with
      | (Throw e, w') => (Failed (Raised e), w')
      | (Ok None, w') =>
          (Failed (Raised (UnexpectedNotFoundError
                             ("user " +:+ pretty (userID auth)))), w')
      | (Ok (Some u), w') =>
          (Replied (oldToUser u,
                    {| subjectWikiEdit :=
                         default false (flags (permission auth) !! "subject_edit"%string) |}),
           w')
      end.

(** The [IUser] that [fetchUser] and [fetchUsers] make of a row. *)
Definition row_user (user : UserRow) : IUser := as_IUser (user_entry user).2.

(** ** Reading the trace *)

(** The events a run added to the trace. *)
Definition emitted (w w' : World) : list Event :=
  drop (length (trace w)) (trace w').


(** The events of a permission lookup. *)
Definition permission_event (e : Event) : bool :=
  match e with
  | PermissionCacheGet _ | PermissionCacheSet _ | QueryUsergroup _
  | LoggerWarn _ _ => true
  | _ => false
  end.

(** ** Concrete instances used in examples *)

(** A decimal reader standing in for [intval]: digits only. *)
Fixpoint read_digits (acc : Z) (s : string) : option Z :=
  match s with
  | EmptyString => Some acc
  | String c rest =>
      let n := Z.of_nat (nat_of_ascii c) in
      if (48 <=? n) && (n <=? 57) then read_digits (acc * 10 + (n - 48)) rest
      else None
  end.

Definition sample_intval (s : string) : option Z :=
  match s with
  | EmptyString => None
  | _ => read_digits 0 s
  end.

(** The serialized form of [array('ban_visit' => '1', 'subject_edit' => '0')]. *)
Definition blob_visit_banned : string :=
  "a:2:{s:9:" +:+ dquote +:+ "ban_visit" +:+ dquote +:+ ";s:1:" +:+ dquote
  +:+ "1" +:+ dquote +:+ ";s:12:" +:+ dquote +:+ "subject_edit" +:+ dquote
  +:+ ";s:1:" +:+ dquote +:+ "0" +:+ dquote +:+ ";}".

(** A finite table standing in for [php.parse] on the blobs of the examples:
    the empty array, the array above, and PHP's null. *)
Definition sample_php_parse (blob : string) : option php_value :=
  if String.eqb blob "a:0:{}" then Some (PArray [])
  else if String.eqb blob blob_visit_banned then
    Some (PArray [("ban_visit"%string, PString "1");
                  ("subject_edit"%string, PString "0")])
  else if String.eqb blob "N;" then Some PNull
  else None.

Definition day_ms : Z := 24 * 60 * 60 * 1000.

(** User 42 of group Normal (10) registered at the epoch, user 7 of the same
    group, user 873244 of the deny-list, and user 99 without a group. *)
Definition sample_users : list UserRow :=
  [ mkUserRow 42 "u42" "nick 42" "icon.jpg" 10 0 "";
    mkUserRow 7 "u7" "nick 7" "icon.jpg" 10 0 "";
    mkUserRow 873244 "u873244" "nick" "icon.jpg" 10 0 "";
    mkUserRow 99 "u99" "nick 99" "icon.jpg" 0 0 "" ].

(** Token [abc123] of user 42 expires at the end of day 100; token [orphan]
    names user 4242, who does not exist. *)
Definition sample_tokens : list TokenRow :=
  [ mkTokenRow "abc123" (Some "42"%string) "app" (100 * day_ms);
    mkTokenRow "orphan" (Some "4242"%string) "app" (100 * day_ms) ].

Definition sample_db : Database :=
  mkDatabase sample_tokens sample_users [ mkUsergroupRow 10 (Some "a:0:{}"%string) ].

(** The same store after group 10 lost its permission row. *)
Definition sample_db_no_group : Database :=
  mkDatabase sample_tokens sample_users [].

(** A fresh process at instant [ms]: nothing cached, nothing logged. *)
Definition fresh_world (d : Database) (ms : Z) : World :=
  mkWorld d ms ∅ ∅ ∅ [].

(** The store used for the deserialization examples: group 10 carries the
    two-flag blob, group 11 an empty blob, group 12 no row. *)
Definition sample_db_blobs : Database :=
  mkDatabase sample_tokens sample_users
    [ mkUsergroupRow 10 (Some blob_visit_banned);
      mkUsergroupRow 11 (Some ""%string) ].

Definition user42 : IUser := mkIUser 42 "u42" "nick 42" 10 "icon.jpg" 0 "".
Definition user99 : IUser := mkIUser 99 "u99" "nick 99" 0 "icon.jpg" 0 "".

(** A fresh process exactly 90 days after the epoch, at which users 42 and
    99 registered. *)
Definition world_day90 : World := fresh_world sample_db (90 * day_ms).

(** One second after token [abc123] expired, in a fresh process. *)
Definition world_token_expired : World :=
  fresh_world sample_db (100 * day_ms + 1000).

(** A process that resolved token [abc123] one second before it expired,
    two seconds later. *)
Definition world_before_expiry : World :=
  fresh_world sample_db (100 * day_ms - 1000).

Definition world_after_expiry : World :=
  advance 2000
    (byToken sample_php_parse sample_intval "abc123" world_before_expiry).2.






(** A fresh process at the epoch over the store with the example blobs. *)
Definition world_blobs : World := fresh_world sample_db_blobs 0.

(** A fresh process at the epoch over the store without the row of group 10. *)
Definition world_no_group : World := fresh_world sample_db_no_group 0.

(** The context a run returned, when it returned one. *)
Definition auth_of (r : Result IAuth * World) : IAuth :=
  match r.1 with
  | Ok a => a
  | Throw _ => emptyAuth
  end.

(** Token [abc123] resolved in the fresh process of day 90. *)
Definition day90_first : Result IAuth * World :=
  byToken sample_php_parse sample_intval "abc123" world_day90.

(** A second table standing in for [php.parse], on blobs that hold a
    scalar: the integer 1, the boolean true, and null. *)
Definition sample_php_parse_scalars (blob : string) : option php_value :=
  if String.eqb blob "i:1;" then Some (PInt 1)
  else if String.eqb blob "b:1;" then Some (PBool true)
  else if String.eqb blob "N;" then Some PNull
  else None.

(** A store whose group 10 carries the blob of the integer 1 and whose
    group 11 carries the blob of null. *)
Definition sample_db_scalars : Database :=
  mkDatabase sample_tokens sample_users
    [ mkUsergroupRow 10 (Some "i:1;"%string);
      mkUsergroupRow 11 (Some "N;"%string) ].

Definition world_scalars : World := fresh_world sample_db_scalars 0.

(** A store from which everything was deleted. *)
Definition empty_db : Database := mkDatabase [] [] [].

(** User 42 resolved by id in the fresh process of day 90. *)
Definition day90_user : Result IAuth * World :=
  byUserID sample_php_parse 42 world_day90.

(** The permissions of group 10 looked up in the fresh process of day 90. *)
Definition day90_permission : Result Permission * World :=
  getPermission sample_php_parse (Some 10) world_day90.

Definition permission_of (r : Result Permission * World) : Permission :=
  match r.1 with
  | Ok p => p
  | Throw _ => mkPermission ∅ false
  end.

(** Subject 8 has its fields row, subject 9 lacks it. *)
Definition sample_repos : Repos :=
  mkRepos sample_users
    [ mkSubjectRow 8 "subject 8" 2 EmptyString 1 EmptyString EmptyString false "cover.jpg" false;
      mkSubjectRow 9 "subject 9" 2 EmptyString 1 EmptyString EmptyString true "cover.jpg" true ]
    [ mkSubjectFieldsRow 8 "2008-04-06" 0 ].

(** Four posts with their creators: users 42 and 7 exist, user 555 does
    not. *)
Definition sample_posts : list (Z * string) :=
  [ (42, "first"%string); (7, "second"%string); (555, "third"%string);
    (42, "fourth"%string) ].

Definition sample_posts_with_ghosts : Result (list ((Z * string) * UserObject)) * list Query :=
  addCreator fst sample_posts true sample_repos.

Definition items_of {A : Type} (r : Result (list A) * list Query) : list A :=
  match r.1 with
  | Ok l => l
  | Throw _ => []
  end.

(** A store whose group 10 carries the blob of PHP's null and whose group
    11 carries text that is no serialized value at all. *)
Definition sample_db_unreadable : Database :=
  mkDatabase sample_tokens sample_users
    [ mkUsergroupRow 10 (Some "N;"%string);
      mkUsergroupRow 11 (Some "garbage"%string) ].

Definition world_unreadable : World := fresh_world sample_db_unreadable 0.



(** ** Strings and objects *)

Lemma eqb_empty_false (s : string) : s ≠ ""%string -> String.eqb s "" = false.
Proof. intros Hs. by apply String.eqb_neq. Qed.

Lemma prefix_append (p t : string) : String.prefix p (p +:+ t) = true.
Proof.
  induction p as [|c p IH]; simpl.
  - by destruct t.
  - destruct (ascii_dec c c); [exact IH | done].
Qed.

Lemma substring_whole (s : string) : substring 0 (String.length s) s = s.
Proof. induction s as [|c s IH]; simpl; [done | by rewrite IH]. Qed.

Lemma slice_append (p t : string) : slice (String.length p) (p +:+ t) = t.
Proof.
  unfold slice. induction p as [|c p IH]; simpl.
  - rewrite Nat.sub_0_r. apply substring_whole.
  - exact IH.
Qed.

(** Mapping the values of the entries and then building the object is
    building the object and then mapping its values. *)
Lemma fold_insert_fmap {V W : Type} (f : V -> W) (es : list (string * V))
    (m : gmap string V) :
  fold_left (fun m kv => <[kv.1 := kv.2]> m) (map (fun kv => (kv.1, f kv.2)) es)
            (f <$> m)
  = f <$> fold_left (fun m kv => <[kv.1 := kv.2]> m) es m.
Proof.
  revert m. induction es as [|[k v] es IH]; intros m; simpl; [done|].
  by rewrite <- IH, fmap_insert.
Qed.

Lemma Object_fromEntries_map {V W : Type} (f : V -> W) (es : list (string * V)) :
  Object_fromEntries (map (fun kv => (kv.1, f kv.2)) es)
  = f <$> Object_fromEntries es.
Proof.
  unfold Object_fromEntries.
  rewrite <- fold_insert_fmap. by rewrite fmap_empty.
Qed.

(** The default record: the two bans read true, every other flag false. *)
Lemma defaultPermission_lookup (name : string) :
  defaultPermission !! name
  = if bool_decide (name = "ban_post"%string
                    \/ name = "ban_visit"%string) then Some true else None.
Proof.
  unfold defaultPermission.
  destruct (decide (name = "ban_post"%string)) as [->|H1].
  { by rewrite lookup_insert_eq. }
  rewrite lookup_insert_ne by done.
  destruct (decide (name = "ban_visit"%string)) as [->|H2].
  { by rewrite lookup_singleton_eq. }
  rewrite lookup_singleton_ne by done.
  rewrite bool_decide_eq_false_2; [done | intros [?|?]; done].
Qed.

Lemma defaultPermission_nonempty : defaultPermission ≠ ∅.
Proof.
  intros H. pose proof (defaultPermission_lookup "ban_post") as L.
  rewrite H, lookup_empty in L. done.
Qed.

(** ** Running the computations *)

Lemma bind_Ok {A B} (m : Async A) (k : A -> Async B) w a w' :
  m w = (Ok a, w') -> (m ≫= k) w = k a w'.
Proof. intros H. unfold mbind, Async_bind, bind. by rewrite H. Qed.

Lemma bind_Throw {A B} (m : Async A) (k : A -> Async B) w e w' :
  m w = (Throw e, w') -> (m ≫= k) w = (Throw e, w').
Proof. intros H. unfold mbind, Async_bind, bind. by rewrite H. Qed.

Lemma bind_inv {A B} (m : Async A) (k : A -> Async B) w b w2 :
  (m ≫= k) w = (Ok b, w2) -> exists a w1, m w = (Ok a, w1) /\ k a w1 = (Ok b, w2).
Proof.
  unfold mbind, Async_bind, bind.
  destruct (m w) as [[a|e] w1]; intros H; [eauto | done].
Qed.


(** Unfolds the monad operations and the primitive effects in the goal. *)
Ltac run :=
  unfold mbind, mret, Async_bind, Async_ret, bind, ret, throw, logger_warn,
    perform, tokenAuthCache_get, tokenAuthCache_set, userCache_get,
    userCache_set, permissionCache_get, permissionCache_set,
    findFirst_chiiAccessToken, UserRepo_findOne, findFirst_chiiUsergroup,
    DateTime_now_toUnixInteger, emit in *;
  simpl in *.

Section Properties.

Variable php_parse : string -> option php_value.
Variable intval : string -> option Z.

Lemma fetchPermission_frame g w r w' :
  fetchPermission php_parse g w = (r, w') ->
  same_setting w w' /\ tokenAuthCache w' = tokenAuthCache w
  /\ userCache w' = userCache w /\ permissionCache w' = permissionCache w.
Proof.
  unfold fetchPermission, same_setting. run.
  repeat case_match; intros; simplify_eq; simpl; done.
Qed.

Lemma fetchPermission_total g w :
  groups_readable php_parse (db w) ->
  exists p w', fetchPermission php_parse g w = (Ok p, w').
Proof.
  intros Hd. unfold fetchPermission. run.
  destruct (find _ _) as [row|] eqn:Hf; [|eauto].
  destruct (perm row) as [blob|] eqn:Hp; [|eauto].
  destruct (String.eqb blob "") eqn:Hb; [eauto|].
  apply find_some in Hf as [Hin _].
  apply String.eqb_neq in Hb.
  destruct (Hd row blob Hin Hp Hb) as (v & es & -> & ->). eauto.
Qed.

(** What a successful [getPermission] leaves behind: for a group that is
    not falsy, a live cache entry holding exactly the record it answered. *)
Lemma getPermission_post g w p w' :
  getPermission php_parse (Some g) w = (Ok p, w') ->
  same_setting w w' /\ tokenAuthCache w' = tokenAuthCache w
  /\ userCache w' = userCache w
  /\ (g = 0 \/ exists expiry,
         permissionCache w' !! g = Some (p, expiry) /\ now_ms w < expiry).
Proof.
  unfold getPermission, same_setting.
  destruct (g =? 0) eqn:Hg.
  { run. intros; simplify_eq. apply Z.eqb_eq in Hg. auto. }
  intros H. apply bind_inv in H as (cached & w1 & Hget & H).
  revert Hget. run. intros Hget. simplify_eq. simpl in *.
  unfold live in H.
  destruct (permissionCache w !! g) as [[p0 e0]|] eqn:Hc.
  - destruct (now_ms w <? e0) eqn:Hlt.
    + simplify_eq. simpl. repeat split; try done. right. exists e0.
      split; [done | by apply Z.ltb_lt].
    + destruct (fetchPermission php_parse g _) as [[q|err] w2] eqn:Hfp;
        [|done].
      apply fetchPermission_frame in Hfp as ((Hdb & Hnow) & Ht & Hu & Hpc).
      simpl in *. simplify_eq. simpl. repeat split; try done. right.
      eexists. rewrite lookup_insert_eq. split; [done|].
      unfold permissionCache_stdTTL. lia.
  - destruct (fetchPermission php_parse g _) as [[q|err] w2] eqn:Hfp;
      [|done].
    apply fetchPermission_frame in Hfp as ((Hdb & Hnow) & Ht & Hu & Hpc).
    simpl in *. simplify_eq. simpl. repeat split; try done. right.
    eexists. rewrite lookup_insert_eq. split; [done|].
    unfold permissionCache_stdTTL. lia.
Qed.

Lemma getPermission_total og w :
  groups_readable php_parse (db w) ->
  exists p w', getPermission php_parse og w = (Ok p, w').
Proof.
  intros Hd. unfold getPermission.
  destruct og as [g|]; [|run; eauto].
  destruct (g =? 0); [run; eauto|].
  destruct (fetchPermission_total g (emit (PermissionCacheGet g) w) Hd)
    as (p & w' & Hp).
  run. destruct (live _ _) as [q|]; [eauto|].
  rewrite Hp. eauto.
Qed.

(** [userToAuth] answers as soon as the permissions are there, with the
    fields the source writes. *)
Lemma userToAuth_run user w perms w' :
  getPermission php_parse (Some (groupID user)) w = (Ok perms, w') ->
  userToAuth php_parse user w
  = (Ok {| userID := id user;
           login := true;
           permission := perms;
           allowNsfw := nsfw_gate user perms (toUnixInteger (now_ms w));
           auth_regTime := regTime user;
           auth_groupID := groupID user |}, w').
Proof.
  intros H. unfold userToAuth.
  rewrite (bind_Ok _ _ _ _ _ H).
  apply getPermission_post in H as ((_ & Hnow) & _).
  run. by rewrite Hnow.
Qed.

Lemma userToAuth_inv user w a w' :
  userToAuth php_parse user w = (Ok a, w') ->
  exists perms,
    getPermission php_parse (Some (groupID user)) w = (Ok perms, w')
    /\ a = {| userID := id user;
              login := true;
              permission := perms;
              allowNsfw := nsfw_gate user perms (toUnixInteger (now_ms w));
              auth_regTime := regTime user;
              auth_groupID := groupID user |}.
Proof.
  intros H. unfold userToAuth in H.
  apply bind_inv in H as (perms & w1 & Hp & H).
  pose proof (userToAuth_run user w perms w1 Hp) as R.
  unfold userToAuth in R. rewrite (bind_Ok _ _ _ _ _ Hp) in R.
  rewrite R in H. simplify_eq. eauto.
Qed.


Lemma truthy_flag_false (p : Permission) (name : string) :
  truthy_flag p name = false <-> flags p !! name ≠ Some true.
Proof.
  unfold truthy_flag. destruct (flags p !! name) as [[]|]; simpl; split; congruence.
Qed.

Lemma nsfw_gate_true user perms now :
  nsfw_gate user perms now = true <->
  (id user ∉ nsfwRestrictedUIDs)
  /\ flags perms !! "ban_visit"%string ≠ Some true
  /\ flags perms !! "user_ban"%string ≠ Some true
  /\ now - regTime user >= 60 * 60 * 24 * 90.
Proof.
  unfold nsfw_gate.
  rewrite !andb_true_iff, !negb_true_iff, !truthy_flag_false.
  rewrite bool_decide_eq_false, Z.geb_le. intuition lia.
Qed.

(** C7: an absent Authorization header resolves to the canonical anonymous
    context, userID 0, login false, allowNsfw false, no permission flag,
    regTime 0, groupID 0, without raising an error and without touching
    the world. *)
Theorem byHeader_absent_is_emptyAuth (w : World) :
  byHeader php_parse intval HUndefined w = (Ok emptyAuth, w)
  /\ userID emptyAuth = 0 /\ login emptyAuth = false
  /\ allowNsfw emptyAuth = false /\ flags (permission emptyAuth) = ∅
  /\ auth_regTime emptyAuth = 0 /\ auth_groupID emptyAuth = 0.
Proof. repeat split. Qed.

(** C1: for a logged-in user record whose permissions [perms] were
    resolved, userToAuth builds a context with allowNsfw true exactly when
    the four gates hold: the id is outside the deny-list, ban_visit is not
    true, user_ban is not true, and now (unix seconds) minus the
    registration time is at least 60*60*24*90.  The boundary is exact, and
    an id of the deny-list (873244) never gets allowNsfw. *)
Theorem userToAuth_allowNsfw_gates (user : IUser) (w w' : World) (perms : Permission) :
  getPermission php_parse (Some (groupID user)) w = (Ok perms, w') ->
  exists a,
    userToAuth php_parse user w = (Ok a, w')
    /\ login a = true /\ permission a = perms
    /\ (allowNsfw a = true <->
        (id user ∉ nsfwRestrictedUIDs)
        /\ flags perms !! "ban_visit"%string ≠ Some true
        /\ flags perms !! "user_ban"%string ≠ Some true
        /\ toUnixInteger (now_ms w) - regTime user >= 60 * 60 * 24 * 90)
    /\ (id user ∉ nsfwRestrictedUIDs ->
        flags perms !! "ban_visit"%string ≠ Some true ->
        flags perms !! "user_ban"%string ≠ Some true ->
        (toUnixInteger (now_ms w) - regTime user = 60 * 60 * 24 * 90 ->
         allowNsfw a = true)
        /\ (toUnixInteger (now_ms w) - regTime user = 60 * 60 * 24 * 90 - 1 ->
            allowNsfw a = false))
    /\ (id user ∈ nsfwRestrictedUIDs <-> id user = 873244)
    /\ (id user ∈ nsfwRestrictedUIDs -> allowNsfw a = false).
Proof.
  intros H. eexists. split; [by apply userToAuth_run|]. simpl.
  split; [done|]. split; [done|]. split; [apply nsfw_gate_true|].
  split; [|split].
  - intros Hid Hv Hb. split; intros Hage.
    + apply nsfw_gate_true. repeat split; try done. lia.
    + apply not_true_is_false. intros G%nsfw_gate_true. lia.
  - unfold nsfwRestrictedUIDs. apply elem_of_singleton.
  - intros Hin. apply not_true_is_false. intros G%nsfw_gate_true. tauto.
Qed.

(** C5, amended: fetchPermission answers the frozen default-deny record,
    ban_post and ban_visit true and every other flag reading false, when
    the group row is absent (after logging one warning, with no error) and
    when the row is there with an unset or empty blob (with no warning);
    for any other blob, provided that php.parse reads it and that
    Object.entries lists the entries of the value read, it answers the
    frozen object whose flags are those of the deserialized blob, a flag
    being true exactly when its stored value is the string "1". *)
Theorem fetchPermission_spec (userGroup : Z) (w : World) :
  let found := find (fun r => ug_id r =? userGroup) (chiiUsergroup (db w)) in
  let queried := emit (QueryUsergroup userGroup) w in
  let deny := Object_freeze defaultPermission in
  (frozen deny = true
   /\ truthy_flag deny "ban_post" = true /\ truthy_flag deny "ban_visit" = true
   /\ forall name, name ≠ "ban_post"%string -> name ≠ "ban_visit"%string ->
                   flags deny !! name = None /\ truthy_flag deny name = false)
  /\ (found = None ->
      fetchPermission php_parse userGroup w
      = (Ok deny,
         emit (LoggerWarn "can't find permission for userGroup %d" userGroup)
              queried))
  /\ (forall row, found = Some row ->
                  perm row = None \/ perm row = Some ""%string ->
                  fetchPermission php_parse userGroup w = (Ok deny, queried))
  /\ (forall row blob parsed entries,
         found = Some row -> perm row = Some blob -> blob ≠ ""%string ->
         php_parse blob = Some parsed -> Object_entries parsed = Some entries ->
         exists p,
           fetchPermission php_parse userGroup w = (Ok p, queried)
           /\ frozen p = true
           /\ flags p = strict_eq_one <$> Object_fromEntries entries
           /\ forall name,
               (truthy_flag p name = true <->
                Object_fromEntries entries !! name = Some (PString "1"))
               /\ (flags p !! name = Some true <->
                   Object_fromEntries entries !! name = Some (PString "1"))).
Proof.
  intros found queried deny. subst found queried deny.
  split; [|split; [|split]].
  - split; [done|]. split; [by vm_compute|]. split; [by vm_compute|].
    intros name H1 H2. unfold truthy_flag. simpl.
    rewrite defaultPermission_lookup.
    rewrite bool_decide_eq_false_2; [done | intros [?|?]; done].
  - intros Hf. unfold fetchPermission. run. by rewrite Hf.
  - intros row Hf [Hp|Hp]; unfold fetchPermission; run; by rewrite Hf, Hp.
  - intros row blob parsed entries Hf Hp Hb Hparse Hent.
    eexists. split.
    { unfold fetchPermission. run.
      rewrite Hf, Hp, (eqb_empty_false _ Hb), Hparse, Hent. reflexivity. }
    simpl. split; [done|]. split; [apply Object_fromEntries_map|].
    intros name. unfold truthy_flag. simpl.
    rewrite Object_fromEntries_map, lookup_fmap.
    destruct (Object_fromEntries entries !! name) as [v|]; simpl;
      [|split; split; congruence].
    assert (strict_eq_one v = true <-> v = PString "1") as E.
    { destruct v; simpl; try (split; congruence).
      rewrite String.eqb_eq. split; congruence. }
    split; split; intros G; simplify_eq;
      try (f_equal; by apply E); try (f_equal; by apply E; congruence);
      rewrite (proj2 E); congruence.
Qed.

(** C10: for a falsy group (undefined or 0) getPermission answers a frozen
    empty mapping and leaves the world as it was: no cache read, no query,
    no log line.  A logged-in user of group 0 therefore gets no flag at
    all, not the default-deny record that fetchPermission would answer for
    a group without a row, and that user's allowNsfw is true as soon as the
    account is 90 days old and outside the deny-list. *)
Theorem getPermission_falsy_group (userGroup : option Z) (user : IUser) (w : World) :
  (userGroup = None \/ userGroup = Some 0 ->
   getPermission php_parse userGroup w = (Ok (mkPermission ∅ true), w))
  /\ (groupID user = 0 ->
      exists a,
        userToAuth php_parse user w = (Ok a, w)
        /\ login a = true
        /\ permission a = mkPermission ∅ true
        /\ (allowNsfw a = true <->
            (id user ∉ nsfwRestrictedUIDs)
            /\ toUnixInteger (now_ms w) - regTime user >= 60 * 60 * 24 * 90)
        /\ (find (fun r => ug_id r =? 0) (chiiUsergroup (db w)) = None ->
            exists w',
              fetchPermission php_parse 0 w
              = (Ok (Object_freeze defaultPermission), w')
              /\ trace w' ≠ trace w
              /\ truthy_flag (Object_freeze defaultPermission) "ban_visit" = true)).
Proof.
  split.
  - by intros [->| ->].
  - intros Hg.
    assert (getPermission php_parse (Some (groupID user)) w
            = (Ok (mkPermission ∅ true), w)) as Hp by by rewrite Hg.
    eexists. split; [by apply userToAuth_run|]. simpl.
    split; [done|]. split; [done|]. split.
    + rewrite nsfw_gate_true. simpl. rewrite lookup_empty. intuition done.
    + intros Hf. eexists. split; [|split].
      * unfold fetchPermission. run. rewrite Hf. reflexivity.
      * simpl. intros E. apply (f_equal length) in E.
        rewrite !length_app in E. simpl in E. lia.
      * by vm_compute.
Qed.

Lemma userToAuth_total user w :
  groups_readable php_parse (db w) ->
  exists a w',
    userToAuth php_parse user w = (Ok a, w')
    /\ userID a = id user /\ login a = true
    /\ auth_regTime a = regTime user /\ auth_groupID a = groupID user.
Proof.
  intros Hd.
  destruct (getPermission_total (Some (groupID user)) w Hd) as (p & w' & Hp).
  eexists _, w'. split; [by apply userToAuth_run|]. done.
Qed.

Lemma find_all_false {A} (f : A -> bool) (l : list A) :
  (forall x, In x l -> f x = false) -> find f l = None.
Proof.
  induction l as [|x l IH]; intros H; simpl; [done|].
  rewrite (H x) by (by left). apply IH. intros y Hy. apply H. by right.
Qed.

(** [fetchUserX] on an id the store knows. *)
Lemma fetchUserX_found n w row :
  n ≠ 0 ->
  find (fun r => u_id r =? n) (chiiMembers (db w)) = Some row ->
  exists u,
    fetchUserX n w = (Ok u, emit (QueryUser n) w)
    /\ id u = n /\ groupID u = u_groupid row /\ regTime u = u_regdate row.
Proof.
  intros Hn Hf. unfold fetchUserX, fetchUser.
  rewrite (proj2 (Z.eqb_neq n 0) Hn). run. rewrite Hf.
  eexists. split; [reflexivity|]. simpl.
  apply find_some in Hf as [_ E]. apply Z.eqb_eq in E. done.
Qed.

Lemma fetchUserX_frame n w u w' :
  fetchUserX n w = (Ok u, w') ->
  same_setting w w' /\ tokenAuthCache w' = tokenAuthCache w
  /\ permissionCache w' = permissionCache w.
Proof.
  unfold fetchUserX, fetchUser, same_setting.
  destruct (n =? 0); run; [done|].
  repeat case_match; intros; simplify_eq; simpl; done.
Qed.

(** A successful [byToken] went through [userToAuth] on the user that the
    token cache holds for the token from then on, until the entry expires. *)
Lemma byToken_inv token w a w' :
  byToken php_parse intval token w = (Ok a, w') ->
  exists u w0 expiry,
    userToAuth php_parse u w0 = (Ok a, w')
    /\ now_ms w0 = now_ms w
    /\ tokenAuthCache w0 !! token = Some (u, expiry)
    /\ now_ms w < expiry.
Proof.
  unfold byToken. intros H.
  apply bind_inv in H as (cached & w1 & Hget & H).
  revert Hget. run. intros Hget. simplify_eq.
  unfold live in H.
  destruct (tokenAuthCache w !! token) as [[u e]|] eqn:Hc.
  - destruct (now_ms w <? e) eqn:Hlt.
    { apply Z.ltb_lt in Hlt. by exists u, (emit (TokenCacheGet token) w), e. }
    clear Hlt. destruct (find _ _) as [row|]; [|done].
    destruct (tk_userID row) as [uid|]; [|done].
    destruct (String.eqb uid ""); [done|].
    destruct (intval uid) as [n|]; [|done].
    destruct (fetchUserX n _) as [[v|err] w2] eqn:Hu; [|done].
    apply fetchUserX_frame in Hu as ((_ & Hnow) & _). simpl in *.
    eexists v, _, _. split; [exact H|]. simpl.
    rewrite lookup_insert_eq. repeat split; try done. lia.
  - destruct (find _ _) as [row|]; [|done].
    destruct (tk_userID row) as [uid|]; [|done].
    destruct (String.eqb uid ""); [done|].
    destruct (intval uid) as [n|]; [|done].
    destruct (fetchUserX n _) as [[v|err] w2] eqn:Hu; [|done].
    apply fetchUserX_frame in Hu as ((_ & Hnow) & _). simpl in *.
    eexists v, _, _. split; [exact H|]. simpl.
    rewrite lookup_insert_eq. repeat split; try done. lia.
Qed.

Lemma byUserID_inv uid w a w' :
  byUserID php_parse uid w = (Ok a, w') ->
  exists u w0, userToAuth php_parse u w0 = (Ok a, w').
Proof.
  unfold byUserID. intros H.
  apply bind_inv in H as (cached & w1 & _ & H).
  destruct cached as [u|]; [eauto|].
  apply bind_inv in H as (u & w2 & _ & H).
  apply bind_inv in H as (? & w3 & _ & H). eauto.
Qed.

Lemma byHeader_inv key w a w' :
  byHeader php_parse intval key w = (Ok a, w') ->
  a = emptyAuth \/ exists token, byToken php_parse intval token w = (Ok a, w').
Proof.
  unfold byHeader. destruct key as [|s|vs]; run.
  - intros; simplify_eq. by left.
  - destruct (String.eqb s ""); [intros; simplify_eq; by left|].
    destruct (negb _); [done|].
    destruct (String.eqb _ ""); [done|]. eauto.
  - done.
Qed.

(** C6: every context that byHeader, byToken, byUserID or emptyAuth
    produces satisfies the invariant: login false implies userID 0, the
    empty permission mapping, regTime 0, groupID 0 and allowNsfw false. *)
Theorem resolved_auth_invariant (e : Entry) (w w' : World) (a : IAuth) :
  resolve php_parse intval e w = (Ok a, w') -> auth_invariant a.
Proof.
  assert (forall u w0 w1 b, userToAuth php_parse u w0 = (Ok b, w1) ->
                            auth_invariant b) as Hlogged.
  { intros u w0 w1 b (perms & _ & ->)%userToAuth_inv. intros L. done. }
  assert (auth_invariant emptyAuth) as Hempty by done.
  destruct e as [key|token|uid|]; simpl; intros H.
  - apply byHeader_inv in H as [->|(token & H)]; [done|].
    apply byToken_inv in H as (u & w0 & ? & H & _). eauto.
  - apply byToken_inv in H as (u & w0 & ? & H & _). eauto.
  - apply byUserID_inv in H as (u & w0 & H). eauto.
  - revert H. run. intros; simplify_eq. done.
Qed.

(** A well-formed bearer header is handed to [byToken] with its token. *)
Lemma byHeader_bearer (t : string) :
  t ≠ ""%string ->
  byHeader php_parse intval (HString (tokenPrefix +:+ t))
  = byToken php_parse intval t.
Proof.
  intros Ht. unfold byHeader.
  rewrite eqb_empty_false by done.
  rewrite prefix_append. cbv zeta.
  by rewrite slice_append, (eqb_empty_false _ Ht).
Qed.

(** C2, amended: for a non-empty token t whose row the token store answers
    (matching token, expiredAt after now) names a user id u, read by intval
    from its non-empty user_id column, that is not 0 and that the user
    store knows, with any live token-cache entry for t holding that user and
    the stored permission blobs readable, byHeader of "Bearer " + t returns
    a context with userID u and login true. *)
Theorem byHeader_bearer_resolves (w : World) (t uid : string) (u : Z)
    (row : TokenRow) (urow : UserRow) :
  t ≠ ""%string ->
  find (fun r => String.eqb (accessToken r) t && (now_ms w <? expiredAt r))
       (chiiAccessToken (db w)) = Some row ->
  tk_userID row = Some uid -> uid ≠ ""%string -> intval uid = Some u ->
  u ≠ 0 ->
  find (fun r => u_id r =? u) (chiiMembers (db w)) = Some urow ->
  (forall cu, live (now_ms w) (tokenAuthCache w !! t) = Some cu -> id cu = u) ->
  groups_readable php_parse (db w) ->
  exists a w',
    byHeader php_parse intval (HString (tokenPrefix +:+ t)) w = (Ok a, w')
    /\ userID a = u /\ login a = true.
Proof.
  intros Ht Hrow Huid Hne Hint Hu Hurow Hcache Hd.
  rewrite (byHeader_bearer t Ht).
  destruct (live (now_ms w) (tokenAuthCache w !! t)) as [cu|] eqn:Hc.
  - destruct (userToAuth_total cu (emit (TokenCacheGet t) w) Hd)
      as (a & w' & Ha & Hid & Hl & _).
    exists a, w'. unfold byToken. run. rewrite Hc, Ha. rewrite Hid.
    split; [done|]. split; [by apply Hcache | done].
  - destruct (fetchUserX_found u (emit (QueryAccessToken t)
                                    (emit (TokenCacheGet t) w)) urow Hu Hurow)
      as (v & Hv & Hvid & _).
    assert (exists W, byToken php_parse intval t w = userToAuth php_parse v W
                      /\ db W = db w) as (W & HW & HdW).
    { eexists. split.
      - unfold byToken. run. rewrite Hc. simpl. rewrite Hrow. simpl.
        rewrite Huid, (eqb_empty_false _ Hne), Hint, Hv. reflexivity.
      - reflexivity. }
    rewrite <- HdW in Hd.
    destruct (userToAuth_total v W Hd) as (a & w' & Ha & Hid & Hl & _).
    exists a, w'. rewrite HW, Ha, Hid. done.
Qed.

(** C3, amended: for every header value that is malformed by its shape,
    any array, a non-empty string without the "Bearer " prefix, or the
    prefix with nothing after it, byHeader fails with the HeaderInvalid
    error (code AUTHORIZATION_INVALID, status 401) and returns no context;
    the world is left as it was. *)
Theorem byHeader_malformed_rejected (key : HeaderValue) (w : World) :
  malformed_shape key -> nonempty_header key ->
  exists msg,
    byHeader php_parse intval key w = (Throw (HeaderInvalidError msg), w)
    /\ statusCode (HeaderInvalidError msg) = Some 401
    /\ error_code (HeaderInvalidError msg) = Some "AUTHORIZATION_INVALID"%string.
Proof.
  destruct key as [|s|vs]; simpl; intros Hm Hn; [done| |by eexists].
  rewrite (eqb_empty_false _ Hn).
  destruct (String.prefix tokenPrefix s) eqn:Hp; simpl.
  - destruct Hm as [?|Hm]; [done|]. rewrite Hm. simpl. by eexists.
  - by eexists.
Qed.

(** C4, amended: when the token cache holds no live entry for the token and
    the token store has no row for it that expires after now (no row at
    all, or only rows with expiredAt at or before now), byToken fails with
    the TokenInvalid error, having read the cache and queried the store
    once each. *)
Theorem byToken_missing_or_expired (token : string) (w : World) :
  live (now_ms w) (tokenAuthCache w !! token) = None ->
  (forall row, In row (chiiAccessToken (db w)) -> accessToken row = token ->
               expiredAt row <= now_ms w) ->
  byToken php_parse intval token w
  = (Throw TokenNotValidError,
     emit (QueryAccessToken token) (emit (TokenCacheGet token) w))
  /\ statusCode TokenNotValidError = Some 401.
Proof.
  intros Hc Hrows. split; [|done].
  unfold byToken. run. rewrite Hc.
  rewrite find_all_false; [done|].
  intros row Hin. destruct (String.eqb (accessToken row) token) eqn:E; [|done].
  apply String.eqb_eq in E. simpl. apply Z.ltb_ge. by apply Hrows.
Qed.

(** C8, amended: the permission field is the empty mapping for the
    anonymous context and for a logged-in user of group 0; for a logged-in
    user whose non-zero group has neither a permission row nor a live cache
    entry it is the default-deny record, ban_post and ban_visit true, which
    is not the empty mapping. *)
Theorem permission_empty_or_default_deny (user : IUser) (w : World) :
  flags (permission emptyAuth) = ∅
  /\ (groupID user = 0 ->
      exists a, userToAuth php_parse user w = (Ok a, w)
                /\ flags (permission a) = ∅)
  /\ (groupID user ≠ 0 ->
      live (now_ms w) (permissionCache w !! groupID user) = None ->
      find (fun r => ug_id r =? groupID user) (chiiUsergroup (db w)) = None ->
      exists a w',
        userToAuth php_parse user w = (Ok a, w')
        /\ login a = true
        /\ permission a = Object_freeze defaultPermission
        /\ flags (permission a) ≠ ∅).
Proof.
  split; [done|]. split.
  - intros Hg. eexists. split.
    + apply userToAuth_run. by rewrite Hg.
    + done.
  - intros Hg Hc Hf. eexists _, _. split.
    + apply userToAuth_run. unfold getPermission.
      rewrite (proj2 (Z.eqb_neq _ 0) Hg). unfold fetchPermission. run.
      rewrite Hc. simpl. rewrite Hf. reflexivity.
    + simpl. split; [done|]. split; [done|]. apply defaultPermission_nonempty.
Qed.




Lemma getPermission_hit g w p :
  g ≠ 0 ->
  live (now_ms w) (permissionCache w !! g) = Some p ->
  getPermission php_parse (Some g) w = (Ok p, emit (PermissionCacheGet g) w).
Proof.
  intros Hg Hl. unfold getPermission.
  rewrite (proj2 (Z.eqb_neq g 0) Hg). run. by rewrite Hl.
Qed.

Lemma live_is_Some {V} now (v : V) expiry (entry : option (V * Z)) :
  entry = Some (v, expiry) -> is_Some (live now entry) -> live now entry = Some v.
Proof.
  intros ->. unfold live. destruct (now <? expiry); [done|]. by intros [? ?].
Qed.


End Properties.

(** ** The theorems at concrete inputs *)

Lemma sample_db_readable : groups_readable sample_php_parse sample_db.
Proof.
  intros row blob Hin Hp Hb. simpl in Hin. destruct Hin as [<-|[]].
  simpl in Hp. injection Hp as <-. exists (PArray []), []. by split.
Qed.

Lemma not_restricted_42 : (42 : Z) ∉ nsfwRestrictedUIDs.
Proof. intros H%elem_of_singleton. discriminate H. Qed.

Lemma not_restricted_99 : (99 : Z) ∉ nsfwRestrictedUIDs.
Proof. intros H%elem_of_singleton. discriminate H. Qed.

(** User 42, registered exactly 90 days before the call, is let through. *)
Lemma userToAuth_allowNsfw_gates_witness :
  getPermission sample_php_parse (Some (groupID user42)) world_day90
  = (Ok (mkPermission ∅ true),
     (getPermission sample_php_parse (Some 10) world_day90).2)
  /\ exists a,
      userToAuth sample_php_parse user42 world_day90
      = (Ok a, (getPermission sample_php_parse (Some 10) world_day90).2)
      /\ allowNsfw a = true.
Proof.
  assert (getPermission sample_php_parse (Some (groupID user42)) world_day90
          = (Ok (mkPermission ∅ true),
             (getPermission sample_php_parse (Some 10) world_day90).2)) as H
    by (vm_compute; reflexivity).
  split; [exact H|].
  destruct (userToAuth_allowNsfw_gates sample_php_parse user42 _ _ _ H)
    as (a & Ha & _ & _ & _ & Hb & _).
  exists a. split; [exact Ha|].
  apply Hb.
  - exact not_restricted_42.
  - simpl. rewrite lookup_empty. discriminate.
  - simpl. rewrite lookup_empty. discriminate.
  - vm_compute. reflexivity.
Defined.

(** Group 12 has no row, group 11 an empty blob, group 10 the two-flag blob. *)
Lemma fetchPermission_spec_witness :
  fetchPermission sample_php_parse 12 world_blobs
  = (Ok (Object_freeze defaultPermission),
     emit (LoggerWarn "can't find permission for userGroup %d" 12)
          (emit (QueryUsergroup 12) world_blobs))
  /\ fetchPermission sample_php_parse 11 world_blobs
     = (Ok (Object_freeze defaultPermission), emit (QueryUsergroup 11) world_blobs)
  /\ exists p,
      fetchPermission sample_php_parse 10 world_blobs
      = (Ok p, emit (QueryUsergroup 10) world_blobs)
      /\ truthy_flag p "ban_visit" = true
      /\ truthy_flag p "subject_edit" = false
      /\ truthy_flag p "ban_post" = false.
Proof.
  split; [|split].
  - pose proof (fetchPermission_spec sample_php_parse 12 world_blobs) as H.
    cbv zeta in H. destruct H as (_ & Habsent & _ & _).
    apply Habsent. reflexivity.
  - pose proof (fetchPermission_spec sample_php_parse 11 world_blobs) as H.
    cbv zeta in H. destruct H as (_ & _ & Hempty & _).
    apply (Hempty (mkUsergroupRow 11 (Some ""%string))); [reflexivity|].
    right. reflexivity.
  - pose proof (fetchPermission_spec sample_php_parse 10 world_blobs) as H.
    cbv zeta in H. destruct H as (_ & _ & _ & Hblob).
    destruct (Hblob (mkUsergroupRow 10 (Some blob_visit_banned))
                blob_visit_banned
                (PArray [("ban_visit"%string, PString "1");
                         ("subject_edit"%string, PString "0")])
                [("ban_visit"%string, PString "1");
                 ("subject_edit"%string, PString "0")])
      as (p & Hp & _ & _ & Hflags);
      [reflexivity | reflexivity | vm_compute; discriminate
       | vm_compute; reflexivity | reflexivity |].
    exists p. split; [exact Hp|]. split; [|split].
    + apply (Hflags "ban_visit"%string). vm_compute. reflexivity.
    + apply not_true_is_false. intros E.
      apply (Hflags "subject_edit"%string) in E. vm_compute in E. discriminate E.
    + apply not_true_is_false. intros E.
      apply (Hflags "ban_post"%string) in E. vm_compute in E. discriminate E.
Defined.

(** User 99 of group 0, 90 days old: no flag at all, and allowNsfw. *)
Lemma getPermission_falsy_group_witness :
  getPermission sample_php_parse (Some 0) world_day90
  = (Ok (mkPermission ∅ true), world_day90)
  /\ exists a,
      userToAuth sample_php_parse user99 world_day90 = (Ok a, world_day90)
      /\ permission a = mkPermission ∅ true
      /\ allowNsfw a = true.
Proof.
  destruct (getPermission_falsy_group sample_php_parse (Some 0) user99 world_day90)
    as (Hperm & Huser).
  split.
  - apply Hperm. right. reflexivity.
  - destruct (Huser eq_refl) as (a & Ha & _ & Hp & Hnsfw & _).
    exists a. split; [exact Ha|]. split; [exact Hp|].
    apply Hnsfw. split; [exact not_restricted_99|].
    vm_compute. discriminate.
Defined.

(** The invariant on the context of token [abc123] and on the anonymous one. *)
Lemma resolved_auth_invariant_witness :
  resolve sample_php_parse sample_intval (ViaHeader (HString "Bearer abc123"))
          world_day90
  = (Ok (auth_of day90_first), day90_first.2)
  /\ auth_invariant (auth_of day90_first)
  /\ auth_invariant emptyAuth.
Proof.
  assert (resolve sample_php_parse sample_intval
            (ViaHeader (HString "Bearer abc123")) world_day90
          = (Ok (auth_of day90_first), day90_first.2)) as H
    by (vm_compute; reflexivity).
  split; [exact H|]. split.
  - exact (resolved_auth_invariant _ _ _ _ _ _ H).
  - apply (resolved_auth_invariant sample_php_parse sample_intval
             ViaEmptyAuth world_day90 world_day90).
    reflexivity.
Defined.

(** Header [Bearer abc123] resolves to user 42. *)
Lemma byHeader_bearer_resolves_witness :
  exists a w',
    byHeader sample_php_parse sample_intval (HString "Bearer abc123") world_day90
    = (Ok a, w')
    /\ userID a = 42 /\ login a = true.
Proof.
  apply (byHeader_bearer_resolves sample_php_parse sample_intval world_day90
           "abc123" "42" 42
           (mkTokenRow "abc123" (Some "42"%string) "app" (100 * day_ms))
           (mkUserRow 42 "u42" "nick 42" "icon.jpg" 10 0 "")).
  - discriminate.
  - vm_compute. reflexivity.
  - reflexivity.
  - discriminate.
  - vm_compute. reflexivity.
  - discriminate.
  - vm_compute. reflexivity.
  - intros cu H. vm_compute in H. discriminate H.
  - exact sample_db_readable.
Defined.

(** Headers [Basic xyz], [Bearer ] and an array of two values are rejected. *)
Lemma byHeader_malformed_rejected_witness :
  (exists msg,
      byHeader sample_php_parse sample_intval (HString "Basic xyz") world_day90
      = (Throw (HeaderInvalidError msg), world_day90))
  /\ (exists msg,
         byHeader sample_php_parse sample_intval (HString "Bearer ") world_day90
         = (Throw (HeaderInvalidError msg), world_day90))
  /\ (exists msg,
         byHeader sample_php_parse sample_intval
                  (HArray ["Bearer a"; "Bearer b"]%string) world_day90
         = (Throw (HeaderInvalidError msg), world_day90)).
Proof.
  split; [|split].
  - destruct (byHeader_malformed_rejected sample_php_parse sample_intval
                (HString "Basic xyz") world_day90) as (msg & H & _).
    + left. reflexivity.
    + discriminate.
    + exists msg. exact H.
  - destruct (byHeader_malformed_rejected sample_php_parse sample_intval
                (HString "Bearer ") world_day90) as (msg & H & _).
    + right. reflexivity.
    + discriminate.
    + exists msg. exact H.
  - destruct (byHeader_malformed_rejected sample_php_parse sample_intval
                (HArray ["Bearer a"; "Bearer b"]%string) world_day90)
      as (msg & H & _).
    + exact I.
    + exact I.
    + exists msg. exact H.
Defined.

(** Token [abc123], expired one second ago, in a fresh process. *)
Lemma byToken_missing_or_expired_witness :
  now_ms world_token_expired - 1000 = 100 * day_ms
  /\ byToken sample_php_parse sample_intval "abc123" world_token_expired
     = (Throw TokenNotValidError,
        emit (QueryAccessToken "abc123")
             (emit (TokenCacheGet "abc123") world_token_expired)).
Proof.
  split; [reflexivity|].
  apply (byToken_missing_or_expired sample_php_parse sample_intval
           "abc123" world_token_expired).
  - reflexivity.
  - intros row Hin Htok. simpl in Hin.
    destruct Hin as [<-|[<-|[]]].
    + vm_compute. discriminate.
    + discriminate Htok.
Defined.

(** User 42 of group 10, whose row is gone: default-deny, not empty. *)
Lemma permission_empty_or_default_deny_witness :
  exists a w',
    userToAuth sample_php_parse user42 world_no_group = (Ok a, w')
    /\ permission a = Object_freeze defaultPermission
    /\ flags (permission a) ≠ ∅.
Proof.
  destruct (permission_empty_or_default_deny sample_php_parse user42
              world_no_group) as (_ & _ & H).
  destruct H as (a & w' & Ha & _ & Hp & Hne).
  - discriminate.
  - reflexivity.
  - reflexivity.
  - exists a, w'. split; [exact Ha|]. split; [exact Hp | exact Hne].
Defined.


(** ** Where the code departs from a sentence of the specification *)

(** C2 as stated fails: the token store holds a row for token [orphan] that
    has not expired and names user id 4242, yet byHeader of "Bearer orphan"
    returns no context; fetchUserX throws UnexpectedNotFound because the
    user store has no such user. *)
Lemma byHeader_dangling_token_counterexample :
  (exists row,
      find (fun r => String.eqb (accessToken r) "orphan"
                     && (now_ms world_day90 <? expiredAt r))
           (chiiAccessToken (db world_day90)) = Some row
      /\ tk_userID row = Some "4242"%string
      /\ sample_intval "4242" = Some 4242)
  /\ (byHeader sample_php_parse sample_intval (HString "Bearer orphan")
               world_day90).1
     = Throw (UnexpectedNotFoundError "user 4242")
  /\ ~ (exists a w',
           byHeader sample_php_parse sample_intval (HString "Bearer orphan")
                    world_day90 = (Ok a, w')
           /\ userID a = 4242 /\ login a = true).
Proof.
  split; [|split].
  - eexists. split; [vm_compute; reflexivity|]. split; reflexivity.
  - vm_compute. reflexivity.
  - intros (a & w' & H & _). apply (f_equal fst) in H.
    vm_compute in H. discriminate H.
Qed.

(** C3 as stated fails: the empty string is a string that is not prefixed
    with "Bearer ", yet byHeader answers the anonymous context for it
    instead of failing with HeaderInvalid. *)
Lemma byHeader_empty_string_counterexample :
  malformed_shape (HString "")
  /\ String.prefix tokenPrefix "" = false
  /\ byHeader sample_php_parse sample_intval (HString "") world_day90
     = (Ok emptyAuth, world_day90).
Proof.
  split; [left; reflexivity|]. split; reflexivity.
Qed.

(** C4 as stated fails: one second after token [abc123] expired, in a
    process that resolved it two seconds earlier, no row of the token store
    for it expires after now, yet byToken returns the context of user 42
    from the token cache instead of failing with TokenInvalid. *)
Lemma byToken_cached_after_expiry_counterexample :
  (forall row, In row (chiiAccessToken (db world_after_expiry)) ->
               accessToken row = "abc123"%string ->
               expiredAt row = now_ms world_after_expiry - 1000)
  /\ find (fun r => String.eqb (accessToken r) "abc123"
                    && (now_ms world_after_expiry <? expiredAt r))
          (chiiAccessToken (db world_after_expiry)) = None
  /\ exists a w',
      byToken sample_php_parse sample_intval "abc123" world_after_expiry
      = (Ok a, w')
      /\ userID a = 42 /\ login a = true.
Proof.
  split; [|split].
  - intros row Hin Htok. vm_compute in Hin.
    destruct Hin as [<-|[<-|[]]]; [reflexivity | discriminate Htok].
  - vm_compute. reflexivity.
  - eexists _, _. split; [vm_compute; reflexivity|]. split; reflexivity.
Qed.

(** C5 as stated fails: group 10 has a row whose blob is neither unset
    nor empty, yet fetchPermission returns no record for it: the blob
    deserializes to null, on which Object.entries throws.  Nor does it for
    group 11, whose blob php.parse cannot read. *)
Lemma fetchPermission_unreadable_blob_counterexample :
  find (fun r => ug_id r =? 10) (chiiUsergroup (db world_unreadable))
  = Some (mkUsergroupRow 10 (Some "N;"%string))
  /\ sample_php_parse "N;" = Some PNull
  /\ fetchPermission sample_php_parse 10 world_unreadable
     = (Throw (ForeignError "Object.entries"),
        emit (QueryUsergroup 10) world_unreadable)
  /\ find (fun r => ug_id r =? 11) (chiiUsergroup (db world_unreadable))
     = Some (mkUsergroupRow 11 (Some "garbage"%string))
  /\ sample_php_parse "garbage" = None
  /\ fetchPermission sample_php_parse 11 world_unreadable
     = (Throw (ForeignError "php.parse"),
        emit (QueryUsergroup 11) world_unreadable)
  /\ ~ (exists p w',
           fetchPermission sample_php_parse 10 world_unreadable = (Ok p, w'))
  /\ ~ (exists p w',
           fetchPermission sample_php_parse 11 world_unreadable = (Ok p, w')).
Proof.
  repeat split; try reflexivity.
  - intros (p & w' & H). apply (f_equal fst) in H. vm_compute in H.
    discriminate H.
  - intros (p & w' & H). apply (f_equal fst) in H. vm_compute in H.
    discriminate H.
Qed.

(** C8 as stated fails: user 42 is logged in and group 10 has no permission
    row, yet the permission of the context is not the empty mapping: it is
    the default-deny record. *)
Lemma byUserID_missing_group_counterexample :
  find (fun r => ug_id r =? 10) (chiiUsergroup (db world_no_group)) = None
  /\ exists a w',
      byUserID sample_php_parse 42 world_no_group = (Ok a, w')
      /\ login a = true /\ auth_groupID a = 10
      /\ flags (permission a) ≠ ∅
      /\ flags (permission a) !! "ban_visit"%string = Some true
      /\ flags (permission a) !! "ban_post"%string = Some true.
Proof.
  split; [reflexivity|].
  eexists _, _. split; [vm_compute; reflexivity|].
  split; [reflexivity|]. split; [reflexivity|]. split; [|split].
  - intros E. apply (f_equal (fun m => m !! "ban_visit"%string)) in E.
    vm_compute in E. discriminate E.
  - vm_compute. reflexivity.
  - vm_compute. reflexivity.
Qed.


(** ** Further properties of [lib/auth/index.ts] *)

Lemma emitted_app (w w' : World) (es : list Event) :
  trace w' = trace w ++ es -> emitted w w' = es.
Proof. intros H. unfold emitted. rewrite H. apply drop_app_length. Qed.

Lemma prefix_split (p s : string) :
  String.prefix p s = true -> s = p +:+ slice (String.length p) s.
Proof.
  unfold slice. revert s. induction p as [|c p IH]; intros s H; simpl.
  - rewrite Nat.sub_0_r. by rewrite substring_whole.
  - destruct s as [|c' s]; simpl in H; [done|].
    destruct (ascii_dec c c') as [->|]; [|done].
    change (String c' s = String c' (p +:+ substring (String.length p)
                                       (String.length s - String.length p) s)).
    f_equal. by apply IH.
Qed.

Section MoreProperties.

Variable php_parse : string -> option php_value.
Variable intval : string -> option Z.

(** Closes a goal [exists es, t ++ [e1] ++ ... = t ++ es /\ Forall P es]. *)
Ltac trace_suffix :=
  simpl; rewrite <- ?app_assoc; eexists; split; [reflexivity|];
  repeat constructor.

Lemma fetchPermission_events g w r w' :
  fetchPermission php_parse g w = (r, w') ->
  exists es, trace w' = trace w ++ es
             /\ Forall (fun e => permission_event e = true) es.
Proof.
  unfold fetchPermission. run.
  repeat case_match; intros; simplify_eq; trace_suffix.
Qed.

(** Whatever its outcome, [getPermission] leaves the store, the clock and
    the two typed caches alone and emits permission events only. *)
Lemma getPermission_frame og w r w' :
  getPermission php_parse og w = (r, w') ->
  same_setting w w' /\ tokenAuthCache w' = tokenAuthCache w
  /\ userCache w' = userCache w
  /\ exists es, trace w' = trace w ++ es
                /\ Forall (fun e => permission_event e = true) es.
Proof.
  unfold getPermission, same_setting. destruct og as [g|].
  2:{ run. intros; simplify_eq. repeat split; try done.
      exists []. by rewrite app_nil_r. }
  destruct (g =? 0).
  { run. intros; simplify_eq. repeat split; try done.
    exists []. by rewrite app_nil_r. }
  run. destruct (live _ _) as [p|].
  { intros; simplify_eq. simpl. repeat split; try done. trace_suffix. }
  destruct (fetchPermission php_parse g _) as [[q|err] w2] eqn:Hf.
  - pose proof (fetchPermission_frame _ _ _ _ _ Hf) as ((Hdb & Hnow) & Ht & Hu & _).
    apply fetchPermission_events in Hf as (es & Hes & HF).
    simpl in *. intros; simplify_eq. simpl. repeat split; try done.
    exists ([PermissionCacheGet g] ++ es ++ [PermissionCacheSet g]).
    rewrite Hes. rewrite <- !app_assoc. split; [done|].
    apply Forall_app. split; [by repeat constructor|].
    apply Forall_app. split; [done | by repeat constructor].
  - pose proof (fetchPermission_frame _ _ _ _ _ Hf) as ((Hdb & Hnow) & Ht & Hu & _).
    apply fetchPermission_events in Hf as (es & Hes & HF).
    simpl in *. intros; simplify_eq. repeat split; try done.
    exists ([PermissionCacheGet g] ++ es).
    rewrite Hes. rewrite <- !app_assoc. split; [done|].
    apply Forall_app. split; [by repeat constructor | done].
Qed.

Lemma userToAuth_frame user w r w' :
  userToAuth php_parse user w = (r, w') ->
  same_setting w w' /\ tokenAuthCache w' = tokenAuthCache w
  /\ userCache w' = userCache w
  /\ exists es, trace w' = trace w ++ es
                /\ Forall (fun e => permission_event e = true) es.
Proof.
  unfold userToAuth. intros H.
  destruct (getPermission php_parse (Some (groupID user)) w)
    as [[p|err] w1] eqn:Hg.
  - rewrite (bind_Ok _ _ _ _ _ Hg) in H.
    unfold mbind, mret, Async_bind, Async_ret, bind, ret,
      DateTime_now_toUnixInteger in H.
    simpl in H. simplify_eq. by eapply getPermission_frame.
  - rewrite (bind_Throw _ _ _ _ _ Hg) in H. simplify_eq.
    by eapply getPermission_frame.
Qed.

(** X10: [fetchUserX] refuses id 0 before any query; for another id
    without a row it queries once and throws UnexpectedNotFound naming the
    id; and a user it returns always carries the requested id, which is not
    0, and the fields of a row of the store with that id. *)
Theorem fetchUserX_outcome (n : Z) (w : World) :
  (n = 0 ->
   fetchUserX n w = (Throw (PlainError ("undefined user id " +:+ pretty n)), w))
  /\ (n ≠ 0 ->
      find (fun r => u_id r =? n) (chiiMembers (db w)) = None ->
      fetchUserX n w
      = (Throw (UnexpectedNotFoundError ("user " +:+ pretty n)),
         emit (QueryUser n) w))
  /\ (forall u w',
         fetchUserX n w = (Ok u, w') ->
         id u = n /\ n ≠ 0 /\ w' = emit (QueryUser n) w
         /\ exists row,
             In row (chiiMembers (db w)) /\ u_id row = n
             /\ username u = u_username row /\ nickname u = u_nickname row
             /\ img u = u_avatar row /\ groupID u = u_groupid row
             /\ regTime u = u_regdate row /\ sign u = u_sign row).
Proof.
  split; [|split].
  - intros ->. reflexivity.
  - intros Hn Hf. unfold fetchUserX, fetchUser.
    rewrite (proj2 (Z.eqb_neq n 0) Hn). run. by rewrite Hf.
  - intros u w'. unfold fetchUserX, fetchUser.
    destruct (n =? 0) eqn:Hn; [run; done|].
    apply Z.eqb_neq in Hn. run.
    destruct (find _ _) as [row|] eqn:Hf; [|done].
    intros ?; simplify_eq. simpl.
    apply find_some in Hf as [Hin E]. apply Z.eqb_eq in E.
    repeat split; try done. exists row. by repeat split.
Qed.

(** X1: [byHeader] returns a logged-in context only for a header that is
    the string "Bearer " followed by a non-empty token, and that context is
    the one [byToken] returns for the token; the prefix is matched as
    written, case included. *)
Theorem byHeader_login_needs_bearer (key : HeaderValue) (w w' : World) (a : IAuth) :
  byHeader php_parse intval key w = (Ok a, w') ->
  login a = true ->
  exists token,
    key = HString (tokenPrefix +:+ token) /\ token ≠ ""%string
    /\ byToken php_parse intval token w = (Ok a, w').
Proof.
  unfold byHeader. destruct key as [|s|vs].
  - run. by intros; simplify_eq.
  - destruct (String.eqb s "") eqn:Hs; [run; by intros; simplify_eq|].
    destruct (String.prefix tokenPrefix s) eqn:Hp; simpl negb; cbv iota zeta;
      [|run; done].
    destruct (String.eqb (slice (String.length tokenPrefix) s) "") eqn:Ht;
      [run; done|].
    intros H _. exists (slice (String.length tokenPrefix) s).
    split; [f_equal; by apply prefix_split|].
    split; [by apply String.eqb_neq | done].
  - run. done.
Qed.

(** X2: a context that [byToken] returns without a live cache entry is
    backed by the store: a row of the token store with exactly that token,
    not yet expired, whose non-empty user_id reads as the context's userID,
    which is not 0, and a row of the user store with that id, whose
    registration time and group the context carries. *)
Theorem byToken_resolved_from_store (token : string) (w w' : World) (a : IAuth) :
  live (now_ms w) (tokenAuthCache w !! token) = None ->
  byToken php_parse intval token w = (Ok a, w') ->
  exists row uid urow,
    In row (chiiAccessToken (db w)) /\ accessToken row = token
    /\ now_ms w < expiredAt row
    /\ tk_userID row = Some uid /\ uid ≠ ""%string
    /\ intval uid = Some (userID a) /\ userID a ≠ 0
    /\ In urow (chiiMembers (db w)) /\ u_id urow = userID a
    /\ auth_regTime a = u_regdate urow /\ auth_groupID a = u_groupid urow
    /\ login a = true.
Proof.
  intros Hc H. unfold byToken in H.
  apply bind_inv in H as (cached & w1 & Hget & H).
  assert (cached = None /\ w1 = emit (TokenCacheGet token) w) as [-> ->].
  { revert Hget. unfold tokenAuthCache_get. rewrite Hc. by intros [= <- <-]. }
  apply bind_inv in H as (found & w2 & Hq & H).
  assert (found = find (fun r => String.eqb (accessToken r) token
                                 && (now_ms w <? expiredAt r))
                       (chiiAccessToken (db w))) as Hfound.
  { revert Hq. unfold findFirst_chiiAccessToken. by intros [= <- <-]. }
  destruct found as [row|]; [|revert H; run; done].
  symmetry in Hfound. apply find_some in Hfound as [Hin Hmatch].
  apply andb_true_iff in Hmatch as [Htok Hexp].
  apply String.eqb_eq in Htok. apply Z.ltb_lt in Hexp.
  destruct (tk_userID row) as [uid|] eqn:Huid; [|revert H; run; done].
  destruct (String.eqb uid "") eqn:Hne; [revert H; run; done|].
  apply String.eqb_neq in Hne.
  destruct (intval uid) as [n|] eqn:Hint; [|revert H; run; done].
  apply bind_inv in H as (u & w3 & Hu & H).
  apply bind_inv in H as ([] & w4 & _ & H).
  apply userToAuth_inv in H as (perms & _ & ->). simpl.
  pose proof (fetchUserX_outcome n w2) as (_ & _ & Hok).
  destruct (Hok u w3 Hu) as (Hid & Hn0 & _ & urow & Hinu & Hrid & _ & _ & _ & Hg & Hr & _).
  assert (db w2 = db w) as Hdb by (revert Hq; unfold findFirst_chiiAccessToken; by intros [= _ <-]).
  rewrite Hdb in Hinu.
  exists row, uid, urow. rewrite Hid. by repeat split.
Qed.





Lemma byUserID_inv_entry uid w a w' :
  byUserID php_parse uid w = (Ok a, w') ->
  exists u w0 expiry,
    userToAuth php_parse u w0 = (Ok a, w')
    /\ now_ms w0 = now_ms w
    /\ userCache w0 !! uid = Some (u, expiry).
Proof.
  unfold byUserID. intros H.
  apply bind_inv in H as (cached & w1 & Hget & H).
  revert Hget. run. intros Hget. simplify_eq.
  unfold live in H.
  destruct (userCache w !! uid) as [[u e]|] eqn:Hc.
  - destruct (now_ms w <? e) eqn:Hlt.
    { by exists u, (emit (UserCacheGet uid) w), e. }
    destruct (fetchUserX uid _) as [[v|err] w2] eqn:Hu; [|done].
    apply fetchUserX_frame in Hu as ((_ & Hnow) & _). simpl in *.
    eexists v, _, _. split; [exact H|]. simpl.
    by rewrite lookup_insert_eq.
  - destruct (fetchUserX uid _) as [[v|err] w2] eqn:Hu; [|done].
    apply fetchUserX_frame in Hu as ((_ & Hnow) & _). simpl in *.
    eexists v, _, _. split; [exact H|]. simpl.
    by rewrite lookup_insert_eq.
Qed.

(** X4: [byUserID] on an id that is neither cached nor known to the store
    fails, for id 0 before any query and otherwise after one query of the
    user store, and writes nothing to the user cache: the failure is not
    remembered, the next call asks the store again. *)
Theorem byUserID_unknown_user (n : Z) (w : World) :
  live (now_ms w) (userCache w !! n) = None ->
  n = 0 \/ find (fun r => u_id r =? n) (chiiMembers (db w)) = None ->
  exists e w',
    byUserID php_parse n w = (Throw e, w')
    /\ e = (if n =? 0 then PlainError ("undefined user id " +:+ pretty n)
            else UnexpectedNotFoundError ("user " +:+ pretty n))
    /\ emitted w w' = UserCacheGet n :: (if n =? 0 then [] else [QueryUser n])
    /\ userCache w' = userCache w
    /\ tokenAuthCache w' = tokenAuthCache w
    /\ permissionCache w' = permissionCache w.
Proof.
  intros Hc Hn. unfold byUserID.
  destruct (n =? 0) eqn:E.
  - apply Z.eqb_eq in E. subst n. eexists _, _. split.
    + run. rewrite Hc. reflexivity.
    + split; [done|]. split; [|done]. by apply emitted_app.
  - apply Z.eqb_neq in E. destruct Hn as [?|Hf]; [done|].
    pose proof (fetchUserX_outcome n (emit (UserCacheGet n) w)) as (_ & Hmiss & _).
    specialize (Hmiss E Hf).
    eexists _, _. split.
    + run. rewrite Hc. simpl. rewrite Hmiss. reflexivity.
    + split; [done|]. split; [|done]. apply emitted_app. simpl.
      by rewrite <- app_assoc.
Qed.


(** X6: [getPermission] caches per group for 60*10 seconds.  After it has
    answered a record for a group that is not 0, a later call that finds
    the entry alive answers the same record with one cache read and no
    query, whatever has been written to the store since; and a call that
    finds no live entry stores what it answers, to expire 600 seconds after
    the call. *)
Theorem getPermission_caches (g : Z) (w w1 : World) (p : Permission)
    (delta_ms : Z) (d : Database) :
  let w2 := advance delta_ms (with_db d w1) in
  g ≠ 0 ->
  getPermission php_parse (Some g) w = (Ok p, w1) ->
  (is_Some (live (now_ms w2) (permissionCache w2 !! g)) ->
   getPermission php_parse (Some g) w2
   = (Ok p, emit (PermissionCacheGet g) w2))
  /\ (live (now_ms w) (permissionCache w !! g) = None ->
      permissionCache w1
      = <[g := (p, now_ms w + 60 * 10 * 1000)]> (permissionCache w))
  /\ (is_Some (live (now_ms w) (permissionCache w !! g)) ->
      permissionCache w1 = permissionCache w).
Proof.
  intros w2 Hg H. split; [|split].
  - intros Hlive.
    apply getPermission_post in H as (_ & _ & _ & [?|(expiry & Hpe & _)]);
      [done|].
    assert (permissionCache w2 !! g = Some (p, expiry)) as Hpe2 by exact Hpe.
    apply getPermission_hit; [done|].
    by apply (live_is_Some _ _ _ _ Hpe2).
  - intros Hmiss. revert H. unfold getPermission.
    rewrite (proj2 (Z.eqb_neq g 0) Hg). run. rewrite Hmiss. simpl.
    destruct (fetchPermission php_parse g _) as [[q|err] w3] eqn:Hf; [|done].
    apply fetchPermission_frame in Hf as ((_ & Hnow) & _ & _ & Hpc).
    simpl in *. intros; simplify_eq. simpl. by rewrite Hnow, Hpc.
  - intros [q Hq]. revert H. unfold getPermission.
    rewrite (proj2 (Z.eqb_neq g 0) Hg). run. rewrite Hq.
    by intros; simplify_eq.
Qed.

(** X7: whatever the entry point and whatever the caches hold, a returned
    context with allowNsfw true is a logged-in one, of a user other than
    873244, whose permission record reads neither ban_visit nor user_ban,
    and whose regTime lies at least 60*60*24*90 seconds before the call. *)
Theorem allowNsfw_only_when_all_gates_pass (e : Entry) (w w' : World) (a : IAuth) :
  resolve php_parse intval e w = (Ok a, w') ->
  allowNsfw a = true ->
  login a = true /\ userID a ≠ 873244
  /\ truthy_flag (permission a) "ban_visit" = false
  /\ truthy_flag (permission a) "user_ban" = false
  /\ auth_regTime a + 60 * 60 * 24 * 90 <= toUnixInteger (now_ms w).
Proof.
  assert (forall u w0 w1 b,
             userToAuth php_parse u w0 = (Ok b, w1) -> now_ms w0 = now_ms w ->
             allowNsfw b = true ->
             login b = true /\ userID b ≠ 873244
             /\ truthy_flag (permission b) "ban_visit" = false
             /\ truthy_flag (permission b) "user_ban" = false
             /\ auth_regTime b + 60 * 60 * 24 * 90 <= toUnixInteger (now_ms w))
    as Hlogged.
  { intros u w0 w1 b (perms & _ & ->)%userToAuth_inv Hnow. simpl.
    rewrite Hnow. intros (Hid & Hv & Hb & Hage)%nsfw_gate_true.
    split; [done|]. split.
    - intros E. apply Hid. unfold nsfwRestrictedUIDs. by apply elem_of_singleton.
    - split; [by apply truthy_flag_false|].
      split; [by apply truthy_flag_false | lia]. }
  destruct e as [key|token|uid|]; simpl; intros H Hnsfw.
  - apply byHeader_inv in H as [->|(token & H)]; [done|].
    apply byToken_inv in H as (u & w0 & ? & H & Hnow & _). eauto.
  - apply byToken_inv in H as (u & w0 & ? & H & Hnow & _). eauto.
  - apply byUserID_inv_entry in H as (u & w0 & ? & H & Hnow & _). eauto.
  - revert H. run. by intros; simplify_eq.
Qed.

(** X8: a permission blob that deserializes to a number or a boolean has
    no entries, so [fetchPermission] answers the frozen empty record, in
    which no flag reads true, not even the two bans of the default record;
    a blob that deserializes to null makes [Object.entries] throw. *)
Theorem fetchPermission_scalar_blob (userGroup : Z) (w : World)
    (row : UsergroupRow) (blob : string) (parsed : php_value) :
  find (fun r => ug_id r =? userGroup) (chiiUsergroup (db w)) = Some row ->
  perm row = Some blob -> blob ≠ ""%string ->
  php_parse blob = Some parsed ->
  match parsed with
  | PBool _ | PInt _ | PDouble _ =>
      fetchPermission php_parse userGroup w
      = (Ok (mkPermission ∅ true), emit (QueryUsergroup userGroup) w)
      /\ forall name, truthy_flag (mkPermission ∅ true) name = false
  | PNull =>
      fetchPermission php_parse userGroup w
      = (Throw (ForeignError "Object.entries"), emit (QueryUsergroup userGroup) w)
  | PString _ | PArray _ => True
  end.
Proof.
  intros Hf Hp Hb Hparse.
  assert (forall name, truthy_flag (mkPermission ∅ true) name = false) as Hno.
  { intros name. unfold truthy_flag. simpl. by rewrite lookup_empty. }
  destruct parsed; try done; unfold fetchPermission; run;
    rewrite Hf, Hp, (eqb_empty_false _ Hb), Hparse; simpl; try done.
Qed.

Lemma fetchUserX_inv_find n w u w' :
  fetchUserX n w = (Ok u, w') ->
  n ≠ 0 /\ w' = emit (QueryUser n) w
  /\ exists row,
      find (fun r => u_id r =? n) (chiiMembers (db w)) = Some row
      /\ u = row_user row.
Proof.
  unfold fetchUserX, fetchUser.
  destruct (n =? 0) eqn:Hn; [run; done|].
  apply Z.eqb_neq in Hn. run.
  destruct (find _ _) as [row|] eqn:Hf; [|done].
  intros ?; simplify_eq. split; [done|]. split; [done|]. by exists row.
Qed.

(** X9: the handler of GET /me refuses every context that is not logged
    in with NeedLogin, without a query; and for a context that [byUserID]
    has just resolved from the store for id n, it replies with the user of
    id n read afresh from the store, whose registration time and group are
    those of the context, and with subjectWikiEdit true exactly when the
    context's permission record has subject_edit true. *)
Theorem getCurrentUser_after_byUserID {U : Type} (oldToUser : IUser -> U)
    (n : Z) (w w1 : World) (a : IAuth) :
  (forall anonymous w0,
      login anonymous = false ->
      getCurrentUser oldToUser anonymous w0
      = (Failed (NeedLoginError "getting current user"), w0))
  /\ (live (now_ms w) (userCache w !! n) = None ->
      byUserID php_parse n w = (Ok a, w1) ->
      exists u edit,
        getCurrentUser oldToUser a w1
        = (Replied (oldToUser u, mkClientPermission edit),
           emit (QueryUser n) w1)
        /\ id u = n /\ regTime u = auth_regTime a
        /\ groupID u = auth_groupID a
        /\ (edit = true <->
            flags (permission a) !! "subject_edit"%string = Some true)).
Proof.
  split.
  { intros anonymous w0 Hl. unfold getCurrentUser. by rewrite Hl. }
  intros Hc H. unfold byUserID in H.
  apply bind_inv in H as (cached & w0 & Hget & H).
  assert (cached = None /\ w0 = emit (UserCacheGet n) w) as [-> ->].
  { revert Hget. unfold userCache_get. rewrite Hc. by intros [= <- <-]. }
  apply bind_inv in H as (u & w2 & Hu & H).
  apply bind_inv in H as ([] & w3 & Hset & H).
  apply fetchUserX_inv_find in Hu as (Hn & -> & row & Hf & ->).
  assert (db w3 = db w) as Hdb3.
  { revert Hset. unfold userCache_set. by intros [= <-]. }
  pose proof (userToAuth_frame _ _ _ _ H) as ((Hdb & _) & _).
  apply userToAuth_inv in H as (perms & _ & ->).
  pose proof Hf as Hf'. apply find_some in Hf' as [_ E]. apply Z.eqb_eq in E.
  exists (row_user row), (default false (flags perms !! "subject_edit"%string)).
  split; [|split; [exact E|]].
  - unfold getCurrentUser, fetchUser. simpl.
    rewrite E, (proj2 (Z.eqb_neq n 0) Hn). run.
    rewrite Hdb, Hdb3. simpl in Hf. rewrite Hf. reflexivity.
  - simpl. split; [done|]. split; [done|].
    destruct (flags perms !! "subject_edit"%string) as [[]|]; simpl;
      split; congruence.
Qed.

End MoreProperties.

(** ** Properties of the rest of [lib/orm/index.ts] *)

Set Warnings "-clear-no-such-hyp".

(** Unfolds the repository monad and its queries in the goal. *)
Ltac orm_run :=
  unfold mbind, mret, Orm_bind, Orm_ret, orm_bind, orm_ret, orm_throw,
    orm_lift, UserRepo_find_In, SubjectRepo_findOne,
    SubjectFieldsRepo_findOne in *;
  simpl in *.

Lemma elem_of_uniq_from (seen l : list Z) (x : Z) :
  x ∈ uniq_from seen l <-> x ∈ l /\ x ∉ seen.
Proof.
  revert seen. induction l as [|y l IH]; intros seen; simpl.
  - split; [intros H | intros [H _]]; by apply elem_of_nil in H.
  - case_bool_decide as Hy.
    + rewrite IH, elem_of_cons. split; [naive_solver|].
      intros [[->|Hl] Hs]; [done | by split].
    + rewrite !elem_of_cons, IH, not_elem_of_cons.
      destruct (decide (x = y)) as [->|Hxy]; naive_solver.
Qed.

Lemma NoDup_uniq_from (seen l : list Z) : NoDup (uniq_from seen l).
Proof.
  revert seen. induction l as [|y l IH]; intros seen; simpl.
  - constructor.
  - case_bool_decide as Hy; [apply IH|].
    constructor; [|apply IH].
    rewrite elem_of_uniq_from, not_elem_of_cons. naive_solver.
Qed.

Lemma elem_of_lo_uniq (l : list Z) (x : Z) : x ∈ lo_uniq l <-> x ∈ l.
Proof.
  unfold lo_uniq. rewrite elem_of_uniq_from. split; [by intros [? _]|].
  intros H. split; [done|]. by intros ?%elem_of_nil.
Qed.

(** A key of the object built from entries comes from one of them, or was
    there before. *)
Lemma fold_insert_lookup_Some {V} (es : list (Z * V)) (m : gmap Z V) k v :
  fold_left (fun m kv => <[kv.1 := kv.2]> m) es m !! k = Some v ->
  (exists e, In e es /\ e.1 = k /\ e.2 = v) \/ m !! k = Some v.
Proof.
  revert m. induction es as [|e es IH]; intros m; simpl; [auto|].
  intros [(e' & Hin & Hk & Hv)|Hm]%IH.
  - left. exists e'. auto.
  - destruct (decide (e.1 = k)) as [E|E].
    + rewrite E, lookup_insert_eq in Hm. left. exists e. split; [by left|].
      split; congruence.
    + rewrite lookup_insert_ne in Hm by done. by right.
Qed.

Lemma fold_insert_lookup_is_Some {V} (es : list (Z * V)) (m : gmap Z V) k :
  (exists e, In e es /\ e.1 = k) \/ is_Some (m !! k) ->
  is_Some (fold_left (fun m kv => <[kv.1 := kv.2]> m) es m !! k).
Proof.
  revert m. induction es as [|e es IH]; intros m; simpl.
  - intros [(e & [] & _)|H]. done.
  - intros [(e' & [->|Hin] & Hk)|H]; apply IH.
    + right. rewrite Hk, lookup_insert_eq. by eexists.
    + left. eauto.
    + right. destruct (decide (e.1 = k)) as [E|E].
      * rewrite E, lookup_insert_eq. by eexists.
      * by rewrite lookup_insert_ne.
Qed.

(** X11: [fetchUsers] answers an object that has a key exactly for each
    requested id that the user store has a row for; the value under a key
    is built from a row with that id (so its id is the key) and carries the
    row's group also as user_group.  Ids that were not asked for never
    appear, and unknown ids are left out without an error. *)
Theorem fetchUsers_lookup (userIDs : list Z) (r : Repos) :
  exists users qs,
    fetchUsers userIDs r = (Ok users, qs)
    /\ (forall k,
           is_Some (users !! k) <->
           k ∈ userIDs /\ exists row, In row (UserRepo r) /\ u_id row = k)
    /\ (forall k user,
           users !! k = Some user ->
           id (as_IUser user) = k
           /\ user_group user = Some (groupID (as_IUser user))
           /\ exists row,
               In row (UserRepo r) /\ u_id row = k
               /\ as_IUser user = row_user row).
Proof.
  unfold fetchUsers. destruct userIDs as [|i ids].
  { exists ∅, []. split; [done|]. split.
    - intros k. rewrite lookup_empty. split; [by intros [? ?]|].
      intros [H _]. by apply elem_of_nil in H.
    - intros k user. by rewrite lookup_empty. }
  set (asked := i :: ids). orm_run. eexists _, _. split; [reflexivity|].
  unfold Record_fromEntries. split.
  - intros k. split.
    + intros [user Hu]. apply fold_insert_lookup_Some in Hu
        as [(e & Hin & Hk & _)|Hu]; [|by rewrite lookup_empty in Hu].
      apply in_map_iff in Hin as (row & <- & Hin).
      apply filter_In in Hin as [Hin Hask].
      apply bool_decide_eq_true in Hask. rewrite elem_of_lo_uniq in Hask.
      simpl in Hk. subst k. eauto.
    + intros [Hask (row & Hin & Hk)].
      apply fold_insert_lookup_is_Some. left.
      exists (user_entry row). split; [|exact Hk].
      apply in_map. apply filter_In. split; [done|].
      apply bool_decide_eq_true. rewrite Hk. by apply elem_of_lo_uniq.
  - intros k user Hu. apply fold_insert_lookup_Some in Hu
      as [(e & Hin & Hk & Hv)|Hu]; [|by rewrite lookup_empty in Hu].
    apply in_map_iff in Hin as (row & <- & Hin).
    apply filter_In in Hin as [Hin _].
    simpl in Hk, Hv. subst k user. simpl.
    split; [done|]. split; [done|]. by exists row.
Qed.

(** X12: [fetchUsers] issues no query at all for an empty list and exactly
    one query otherwise, whose id list has no duplicates and holds the same
    ids as the argument. *)
Theorem fetchUsers_queries (userIDs : list Z) (r : Repos) :
  fetchUsers [] r = (Ok ∅, [])
  /\ (userIDs ≠ [] ->
      exists users ids,
        fetchUsers userIDs r = (Ok users, [FindUsersIn ids])
        /\ NoDup ids /\ forall k, k ∈ ids <-> k ∈ userIDs).
Proof.
  split; [done|]. intros Hne. destruct userIDs as [|i ids]; [done|].
  eexists _, _. split; [reflexivity|].
  split; [apply NoDup_uniq_from | apply elem_of_lo_uniq].
Qed.

Lemma array_map_Ok {A B} (f : A -> Result B) (l : list A) (out : list B) :
  array_map f l = Ok out -> Forall2 (fun x y => f x = Ok y) l out.
Proof.
  revert out. induction l as [|x l IH]; intros out; simpl.
  - intros [= <-]. constructor.
  - destruct (f x) as [y|e] eqn:Hx; [|done].
    destruct (array_map f l) as [ys|e]; [|done].
    intros [= <-]. constructor; [done | by apply IH].
Qed.

Lemma array_map_total {A B} (f : A -> Result B) (l : list A) :
  (forall x, In x l -> exists y, f x = Ok y) ->
  exists out, array_map f l = Ok out.
Proof.
  induction l as [|x l IH]; intros H; simpl; [by eexists|].
  destruct (H x) as [y ->]; [by left|].
  destruct IH as [ys ->]; [intros; apply H; by right|]. by eexists.
Qed.

Lemma array_map_first_throw {A B} (f : A -> Result B) (pre post : list A) x e :
  (forall p, In p pre -> exists y, f p = Ok y) ->
  f x = Throw e ->
  array_map f (pre ++ x :: post) = Throw e.
Proof.
  induction pre as [|p pre IH]; intros Hpre Hx; simpl.
  - by rewrite Hx.
  - destruct (Hpre p) as [y ->]; [by left|].
    rewrite IH; [done | | done]. intros; apply Hpre; by right.
Qed.

Section AddCreatorProperties.

Context {T : Type} (creatorID : T -> Z).

Lemma addCreator_unfold (arr : list T) (ghostUser : bool) (r : Repos) :
  exists users qs,
    fetchUsers (map creatorID arr) r = (Ok users, qs)
    /\ addCreator creatorID arr ghostUser r
       = (array_map (with_creator creatorID ghostUser users) arr, qs)
    /\ (forall o, In o arr ->
                  (is_Some (users !! creatorID o) <-> creator_known creatorID r o))
    /\ (forall k user,
           users !! k = Some user ->
           id (as_IUser user) = k
           /\ exists row, In row (UserRepo r) /\ u_id row = k
                          /\ as_IUser user = row_user row).
Proof.
  destruct (fetchUsers_lookup (map creatorID arr) r)
    as (users & qs & Hf & Hdom & Hval).
  exists users, qs. split; [exact Hf|]. split; [|split].
  - unfold addCreator. orm_run. rewrite Hf. simpl. by rewrite app_nil_r.
  - intros o Ho. rewrite Hdom. unfold creator_known. split; [by intros [_ ?]|].
    intros Hk. split; [|exact Hk]. apply list_elem_of_In. by apply in_map.
  - intros k user Hu. destruct (Hval _ _ Hu) as (Hid & _ & Hrow). by split.
Qed.

Lemma Forall2_Forall_r {A B} (R : A -> B -> Prop) (l : list A) (k : list B) :
  Forall2 R l k -> Forall (fun y => exists x, In x l /\ R x y) k.
Proof.
  induction 1 as [|x y l k Hxy _ IH]; constructor.
  - exists x. split; [by left | done].
  - eapply Forall_impl; [exact IH|].
    intros y' (x' & Hin & Hr). exists x'. split; [by right | done].
Qed.

(** X13: when [addCreator] returns, the result lists the items of the
    input, in their order, each with a creator: the user of the store whose
    id is the item's creatorID, or, in ghost mode only and only when the
    store has no such user, the ghost of that id.  The users of all items
    are fetched with one query, none for an empty list. *)
Theorem addCreator_result (arr : list T) (ghostUser : bool) (r : Repos)
    (out : list (T * UserObject)) (qs : list Query) :
  addCreator creatorID arr ghostUser r = (Ok out, qs) ->
  map fst out = arr
  /\ qs = match arr with
          | [] => []
          | _ => [FindUsersIn (lo_uniq (map creatorID arr))]
          end
  /\ Forall (fun oc =>
               (id (as_IUser oc.2) = creatorID oc.1
                /\ exists row, In row (UserRepo r) /\ u_id row = creatorID oc.1
                               /\ as_IUser oc.2 = row_user row)
               \/ (ghostUser = true /\ ~ creator_known creatorID r oc.1
                   /\ oc.2 = mkUserObject (ghost (creatorID oc.1)) None))
            out.
Proof.
  intros H.
  destruct (addCreator_unfold arr ghostUser r)
    as (users & qs' & Hf & Hadd & Hdom & Hval).
  rewrite Hadd in H. injection H as Hmap <-.
  apply array_map_Ok in Hmap. split; [|split].
  - clear Hdom Hf Hadd Hval.
    induction Hmap as [|o oc l out' Ho _ IH]; simpl; [done|].
    rewrite IH. f_equal. unfold with_creator in Ho.
    repeat case_match; by simplify_eq.
  - destruct arr; simpl in Hf; by injection Hf as _ <-.
  - apply Forall2_Forall_r in Hmap.
    eapply Forall_impl; [exact Hmap|].
    intros [o' c] (o & Hin & Ho). unfold with_creator in Ho. simpl.
    destruct (users !! creatorID o) as [user|] eqn:Hu.
    + injection Ho as <- <-. left. by apply Hval.
    + destruct ghostUser; [|done]. injection Ho as <- <-. right.
      split; [done|]. split; [|done].
      intros Hk. apply (Hdom o Hin) in Hk. rewrite Hu in Hk. by destruct Hk.
Qed.

(** X14: in ghost mode [addCreator] always returns, whatever users the
    store lacks, and its result has one entry per item. *)
Theorem addCreator_ghost_total (arr : list T) (r : Repos) :
  exists out qs,
    addCreator creatorID arr true r = (Ok out, qs)
    /\ length out = length arr.
Proof.
  destruct (addCreator_unfold arr true r) as (users & qs & _ & Hadd & _).
  destruct (array_map_total (with_creator creatorID true users) arr)
    as [out Hout].
  { intros o _. unfold with_creator.
    destruct (users !! creatorID o); by eexists. }
  exists out, qs. rewrite Hadd, Hout. split; [done|].
  apply array_map_Ok in Hout. by apply Forall2_length in Hout.
Qed.

(** X15: without ghost mode [addCreator] returns exactly when the store
    has a user for the creator of every item; otherwise it throws
    UnexpectedNotFound naming the creator of the first item, in the order
    of the input, whose user is missing. *)
Theorem addCreator_strict (arr : list T) (r : Repos) :
  ((forall o, In o arr -> creator_known creatorID r o) <->
   exists out qs, addCreator creatorID arr false r = (Ok out, qs))
  /\ (forall pre o post,
         arr = pre ++ o :: post ->
         (forall p, In p pre -> creator_known creatorID r p) ->
         ~ creator_known creatorID r o ->
         exists qs,
           addCreator creatorID arr false r
           = (Throw (UnexpectedNotFoundError ("user " +:+ pretty (creatorID o))),
              qs)).
Proof.
  destruct (addCreator_unfold arr false r)
    as (users & qs & _ & Hadd & Hdom & _).
  assert (forall o, In o arr -> creator_known creatorID r o ->
                    exists y, with_creator creatorID false users o = Ok y)
    as Hknown.
  { intros o Hin Hk. apply (Hdom o Hin) in Hk as [user Hu].
    unfold with_creator. rewrite Hu. by eexists. }
  assert (forall o, In o arr -> ~ creator_known creatorID r o ->
                    with_creator creatorID false users o
                    = Throw (UnexpectedNotFoundError
                               ("user " +:+ pretty (creatorID o))))
    as Hunknown.
  { intros o Hin Hk. unfold with_creator.
    destruct (users !! creatorID o) as [user|] eqn:Hu; [|done].
    destruct Hk. apply (Hdom o Hin). by eexists. }
  split; [split|].
  - intros Hall.
    destruct (array_map_total (with_creator creatorID false users) arr)
      as [out Hout]; [by auto|].
    exists out, qs. by rewrite Hadd, Hout.
  - intros (out & qs' & H) o Hin. rewrite Hadd in H. injection H as Hmap _.
    apply array_map_Ok in Hmap.
    destruct (users !! creatorID o) as [user|] eqn:Hu.
    { apply (Hdom o Hin). by eexists. }
    exfalso. clear Hknown Hunknown Hdom Hadd.
    induction Hmap as [|x y l k Hxy _ IH]; [done|].
    destruct Hin as [->|Hin]; [|by apply IH].
    unfold with_creator in Hxy. by rewrite Hu in Hxy.
  - intros pre o post -> Hpre Ho. exists qs. rewrite Hadd.
    rewrite (array_map_first_throw _ pre post o
               (UnexpectedNotFoundError ("user " +:+ pretty (creatorID o))));
      [done | |].
    + intros p Hp. apply Hknown; [|by apply Hpre].
      apply in_or_app. by left.
    + apply Hunknown; [|done]. apply in_or_app. right. by left.
Qed.

End AddCreatorProperties.

(** X16: [fetchSubjectByID] answers null after one query when the subject
    store has no row for the id, without asking for the fields; it throws
    UnexpectedNotFound when the subject is there but its fields row is not;
    and a subject it returns carries the requested id, with a row of each
    store behind it. *)
Theorem fetchSubjectByID_outcome (id : Z) (r : Repos) :
  (find (fun row => s_id row =? id) (SubjectRepo r) = None ->
   fetchSubjectByID id r = (Ok None, [FindOneSubject id]))
  /\ (forall subject,
         find (fun row => s_id row =? id) (SubjectRepo r) = Some subject ->
         find (fun row => f_subjectID row =? id) (SubjectFieldsRepo r) = None ->
         fetchSubjectByID id r
         = (Throw (UnexpectedNotFoundError ("subject fields " +:+ pretty id)),
            [FindOneSubject id; FindOneSubjectFields id]))
  /\ (forall s qs,
         fetchSubjectByID id r = (Ok (Some s), qs) ->
         subject_id s = id
         /\ qs = [FindOneSubject id; FindOneSubjectFields id]
         /\ exists subject f,
             In subject (SubjectRepo r) /\ s_id subject = id
             /\ In f (SubjectFieldsRepo r) /\ f_subjectID f = id
             /\ subject_name s = s_name subject /\ nsfw s = s_subjectNsfw subject
             /\ locked s = s_locked subject
             /\ date s = f_date f /\ redirect s = f_fieldRedirect f).
Proof.
  unfold fetchSubjectByID. split; [|split].
  - intros Hs. orm_run. by rewrite Hs.
  - intros subject Hs Hf. orm_run. by rewrite Hs, Hf.
  - intros s qs. orm_run.
    destruct (find _ (SubjectRepo r)) as [subject|] eqn:Hs; [|done].
    simpl. destruct (find _ (SubjectFieldsRepo r)) as [f|] eqn:Hf; [|done].
    simpl. intros [= <- <-]. simpl.
    apply find_some in Hs as [Hin Hid]. apply Z.eqb_eq in Hid.
    apply find_some in Hf as [Hinf Hfid]. apply Z.eqb_eq in Hfid.
    split; [done|]. split; [done|]. exists subject, f. by repeat split.
Qed.

(** ** The further properties at concrete inputs *)

Lemma sample_db_readable_empty : groups_readable sample_php_parse empty_db.
Proof. intros row blob []. Qed.

(** Header [Bearer abc123]: the logged-in context is the one of the token. *)
Lemma byHeader_login_needs_bearer_witness :
  exists token,
    HString "Bearer abc123" = HString (tokenPrefix +:+ token)
    /\ token ≠ ""%string
    /\ byToken sample_php_parse sample_intval token world_day90
       = (Ok (auth_of day90_first), day90_first.2).
Proof.
  apply (byHeader_login_needs_bearer sample_php_parse sample_intval
           (HString "Bearer abc123") world_day90 day90_first.2
           (auth_of day90_first)).
  - vm_compute. reflexivity.
  - reflexivity.
Defined.

(** Token [abc123] in a fresh process: the rows behind the context. *)
Lemma byToken_resolved_from_store_witness :
  exists row urow,
    In row (chiiAccessToken (db world_day90))
    /\ accessToken row = "abc123"%string
    /\ now_ms world_day90 < expiredAt row
    /\ In urow (chiiMembers (db world_day90))
    /\ u_id urow = userID (auth_of day90_first).
Proof.
  destruct (byToken_resolved_from_store sample_php_parse sample_intval
              "abc123" world_day90 day90_first.2 (auth_of day90_first))
    as (row & uid & urow & H1 & H2 & H3 & _ & _ & _ & _ & H4 & H5 & _).
  - reflexivity.
  - vm_compute. reflexivity.
  - exists row, urow. repeat split; assumption.
Defined.


(** Id 5 is unknown, id 0 is refused. *)
Lemma byUserID_unknown_user_witness :
  (exists w',
      byUserID sample_php_parse 5 world_day90
      = (Throw (UnexpectedNotFoundError "user 5"), w')
      /\ userCache w' = userCache world_day90)
  /\ (exists w',
         byUserID sample_php_parse 0 world_day90
         = (Throw (PlainError "undefined user id 0"), w')
         /\ emitted world_day90 w' = [UserCacheGet 0]).
Proof.
  split.
  - destruct (byUserID_unknown_user sample_php_parse 5 world_day90)
      as (e & w' & H & He & _ & Hc & _).
    + reflexivity.
    + right. reflexivity.
    + exists w'. split; [|exact Hc]. rewrite H, He. reflexivity.
  - destruct (byUserID_unknown_user sample_php_parse 0 world_day90)
      as (e & w' & H & He & Hem & _).
    + reflexivity.
    + left. reflexivity.
    + exists w'. split; [|exact Hem]. rewrite H, He. reflexivity.
Defined.


(** The permissions of group 10, looked up again a second later from a
    store that has lost every row. *)
Lemma getPermission_caches_witness :
  getPermission sample_php_parse (Some 10)
                (advance 1000 (with_db empty_db day90_permission.2))
  = (Ok (permission_of day90_permission),
     emit (PermissionCacheGet 10)
          (advance 1000 (with_db empty_db day90_permission.2)))
  /\ permissionCache day90_permission.2
     = <[10 := (permission_of day90_permission,
                now_ms world_day90 + 60 * 10 * 1000)]>
         (permissionCache world_day90).
Proof.
  assert (getPermission sample_php_parse (Some 10) world_day90
          = (Ok (permission_of day90_permission), day90_permission.2)) as H
    by (vm_compute; reflexivity).
  pose proof (getPermission_caches sample_php_parse 10 world_day90
                day90_permission.2 (permission_of day90_permission)
                1000 empty_db) as T.
  cbv zeta in T.
  destruct T as (Thit & Tmiss & _).
  - discriminate.
  - exact H.
  - split.
    + apply Thit. vm_compute. eexists. reflexivity.
    + apply Tmiss. reflexivity.
Defined.

(** The context of token [abc123] on day 90 has allowNsfw, hence no ban. *)
Lemma allowNsfw_only_when_all_gates_pass_witness :
  allowNsfw (auth_of day90_first) = true
  /\ login (auth_of day90_first) = true
  /\ truthy_flag (permission (auth_of day90_first)) "ban_visit" = false
  /\ auth_regTime (auth_of day90_first) + 60 * 60 * 24 * 90
     <= toUnixInteger (now_ms world_day90).
Proof.
  assert (allowNsfw (auth_of day90_first) = true) as Hn
    by (vm_compute; reflexivity).
  split; [exact Hn|].
  destruct (allowNsfw_only_when_all_gates_pass sample_php_parse sample_intval
              (ViaToken "abc123") world_day90 day90_first.2
              (auth_of day90_first))
    as (Hl & _ & Hv & _ & Hage).
  - vm_compute. reflexivity.
  - exact Hn.
  - split; [exact Hl|]. split; [exact Hv | exact Hage].
Defined.

(** Group 10 stores the integer 1, group 11 stores null. *)
Lemma fetchPermission_scalar_blob_witness :
  fetchPermission sample_php_parse_scalars 10 world_scalars
  = (Ok (mkPermission ∅ true), emit (QueryUsergroup 10) world_scalars)
  /\ fetchPermission sample_php_parse_scalars 11 world_scalars
     = (Throw (ForeignError "Object.entries"),
        emit (QueryUsergroup 11) world_scalars).
Proof.
  split.
  - apply (fetchPermission_scalar_blob sample_php_parse_scalars 10
             world_scalars (mkUsergroupRow 10 (Some "i:1;"%string))
             "i:1;" (PInt 1)); try reflexivity.
    discriminate.
  - apply (fetchPermission_scalar_blob sample_php_parse_scalars 11
             world_scalars (mkUsergroupRow 11 (Some "N;"%string))
             "N;" PNull); try reflexivity.
    discriminate.
Defined.

(** GET /me for user 42 just resolved, and for the anonymous context. *)
Lemma getCurrentUser_after_byUserID_witness :
  getCurrentUser (fun u => u) emptyAuth world_day90
  = (Failed (NeedLoginError "getting current user"), world_day90)
  /\ exists u edit,
      getCurrentUser (fun u => u) (auth_of day90_user) day90_user.2
      = (Replied (u, mkClientPermission edit),
         emit (QueryUser 42) day90_user.2)
      /\ id u = 42.
Proof.
  destruct (getCurrentUser_after_byUserID sample_php_parse (fun u : IUser => u)
              42 world_day90 day90_user.2 (auth_of day90_user))
    as (Hanon & Hme).
  split.
  - apply Hanon. reflexivity.
  - destruct Hme as (u & edit & H & Hid & _).
    + reflexivity.
    + vm_compute. reflexivity.
    + exists u, edit. split; [exact H | exact Hid].
Defined.

(** Ids 0, 5 and 42 against the sample store. *)
Lemma fetchUserX_outcome_witness :
  fetchUserX 0 world_day90
  = (Throw (PlainError "undefined user id 0"), world_day90)
  /\ fetchUserX 5 world_day90
     = (Throw (UnexpectedNotFoundError "user 5"), emit (QueryUser 5) world_day90)
  /\ id (row_user (mkUserRow 42 "u42" "nick 42" "icon.jpg" 10 0 EmptyString)) = 42.
Proof.
  split; [|split].
  - destruct (fetchUserX_outcome 0 world_day90) as (H & _).
    rewrite (H eq_refl). reflexivity.
  - destruct (fetchUserX_outcome 5 world_day90) as (_ & H & _).
    rewrite H; [reflexivity | discriminate | reflexivity].
  - destruct (fetchUserX_outcome 42 world_day90) as (_ & _ & H).
    destruct (H (row_user (mkUserRow 42 "u42" "nick 42" "icon.jpg" 10 0 EmptyString))
                (emit (QueryUser 42) world_day90)) as (Hid & _).
    + vm_compute. reflexivity.
    + exact Hid.
Defined.

(** Ids 42, 555 and 42 again: one entry, for 42. *)
Lemma fetchUsers_lookup_witness :
  exists users qs,
    fetchUsers [42; 555; 42] sample_repos = (Ok users, qs)
    /\ is_Some (users !! 42) /\ users !! 555 = None /\ users !! 7 = None.
Proof.
  destruct (fetchUsers_lookup [42; 555; 42] sample_repos)
    as (users & qs & H & Hdom & _).
  exists users, qs. split; [exact H|]. split; [|split].
  - apply Hdom. split.
    + apply list_elem_of_In. left. reflexivity.
    + exists (mkUserRow 42 "u42" "nick 42" "icon.jpg" 10 0 EmptyString).
      split; [left; reflexivity | reflexivity].
  - destruct (users !! 555) as [user|] eqn:E; [|reflexivity].
    exfalso. destruct (proj1 (Hdom 555)) as (_ & row & Hin & Hid).
    + rewrite E. eexists. reflexivity.
    + simpl in Hin.
      destruct Hin as [<-|[<-|[<-|[<-|[]]]]]; discriminate Hid.
  - destruct (users !! 7) as [user|] eqn:E; [|reflexivity].
    exfalso. destruct (proj1 (Hdom 7)) as (Hin & _).
    + rewrite E. eexists. reflexivity.
    + apply list_elem_of_In in Hin. simpl in Hin.
      destruct Hin as [Hin|[Hin|[Hin|[]]]]; discriminate Hin.
Defined.

(** Ids 42, 555 and 42 again: one query, without the repetition. *)
Lemma fetchUsers_queries_witness :
  exists users ids,
    fetchUsers [42; 555; 42] sample_repos = (Ok users, [FindUsersIn ids])
    /\ NoDup ids.
Proof.
  destruct (fetchUsers_queries [42; 555; 42] sample_repos) as (_ & H).
  destruct H as (users & ids & H & Hnd & _).
  - discriminate.
  - exists users, ids. split; [exact H | exact Hnd].
Defined.

(** The four sample posts in ghost mode. *)
Lemma addCreator_result_witness :
  addCreator fst sample_posts true sample_repos
  = (Ok (items_of sample_posts_with_ghosts), sample_posts_with_ghosts.2)
  /\ map fst (items_of sample_posts_with_ghosts) = sample_posts
  /\ sample_posts_with_ghosts.2 = [FindUsersIn [42; 7; 555]].
Proof.
  assert (addCreator fst sample_posts true sample_repos
          = (Ok (items_of sample_posts_with_ghosts), sample_posts_with_ghosts.2))
    as H by (vm_compute; reflexivity).
  split; [exact H|].
  destruct (addCreator_result fst sample_posts true sample_repos _ _ H)
    as (Hitems & Hqs & _).
  split; [exact Hitems | exact Hqs].
Defined.

(** The four sample posts without ghost mode: user 555 is the first one
    missing. *)
Lemma addCreator_strict_witness :
  exists qs,
    addCreator fst sample_posts false sample_repos
    = (Throw (UnexpectedNotFoundError "user 555"), qs).
Proof.
  destruct (addCreator_strict fst sample_posts sample_repos) as (_ & H).
  apply (H [(42, "first"%string); (7, "second"%string)]
           (555, "third"%string) [(42, "fourth"%string)]).
  - reflexivity.
  - intros p [<-|[<-|[]]].
    + exists (mkUserRow 42 "u42" "nick 42" "icon.jpg" 10 0 EmptyString).
      split; [left; reflexivity | reflexivity].
    + exists (mkUserRow 7 "u7" "nick 7" "icon.jpg" 10 0 EmptyString).
      split; [right; left; reflexivity | reflexivity].
  - intros (row & Hin & Hid). simpl in Hin.
    destruct Hin as [<-|[<-|[<-|[<-|[]]]]]; discriminate Hid.
Defined.

(** Subject 10 is unknown, subject 9 lacks its fields, subject 8 is whole. *)
Lemma fetchSubjectByID_outcome_witness :
  fetchSubjectByID 10 sample_repos = (Ok None, [FindOneSubject 10])
  /\ fetchSubjectByID 9 sample_repos
     = (Throw (UnexpectedNotFoundError "subject fields 9"),
        [FindOneSubject 9; FindOneSubjectFields 9])
  /\ exists s, fetchSubjectByID 8 sample_repos
               = (Ok (Some s), [FindOneSubject 8; FindOneSubjectFields 8])
               /\ subject_id s = 8.
Proof.
  split; [|split].
  - destruct (fetchSubjectByID_outcome 10 sample_repos) as (H & _).
    apply H. reflexivity.
  - destruct (fetchSubjectByID_outcome 9 sample_repos) as (_ & H & _).
    rewrite (H (mkSubjectRow 9 "subject 9" 2 EmptyString 1 EmptyString
                  EmptyString true "cover.jpg" true));
      reflexivity.
  - destruct (fetchSubjectByID_outcome 8 sample_repos) as (_ & _ & H).
    eexists. split; [vm_compute; reflexivity|].
    eapply H. vm_compute. reflexivity.
Defined.
